(** * PetAd backend: the pet status lifecycle

    A shallow embedding of
    - [src/common/enums] (the [PetStatus] enum),
    - [src/pets/validators/status-transition.validator.ts]
      ([StatusTransitionValidator]),
    - [src/pets/pets.service.ts] ([PetsService]),
    - [src/adoption/adoption.controller.ts] ([AdoptionController]),
    followed by the properties of the lifecycle specification that were
    checked against them.

    Conventions.  A thrown exception is the left summand of a sum; the
    Prisma store and the console are threaded explicitly through a small
    state-and-exception monad; [new Date()] is an extra argument [now]. *)

From Stdlib Require Import ZArith.
From stdpp Require Import base decidable option list strings gmap.

Open Scope string_scope.

(* ===================================================================== *)
(** * Enumerations *)
(* ===================================================================== *)

(** [export enum PetStatus] *)
Inductive PetStatus : Type :=
  | AVAILABLE
  | PENDING
  | IN_CUSTODY
  | ADOPTED.

#[global] Instance PetStatus_eq_dec : EqDecision PetStatus.
Proof. solve_decision. Defined.

(** The string value of each member, as interpolated by template
    literals. *)
Definition PetStatus_toString (s : PetStatus) : string :=
  match s with
  | AVAILABLE => "AVAILABLE"
  | PENDING => "PENDING"
  | IN_CUSTODY => "IN_CUSTODY"
  | ADOPTED => "ADOPTED"
  end.

(** [Object.values(PetStatus)], in declaration order. *)
Definition PetStatus_values : list PetStatus :=
  [AVAILABLE; PENDING; IN_CUSTODY; ADOPTED].

(** Modelled from the spec: the declaration of [UserRole] is not part of
    the sources at hand (only its uses are); the data model gives
    [role ∈ {USER, SHELTER, ADMIN}]. *)
Inductive UserRole : Type :=
  | USER
  | SHELTER
  | ADMIN.

#[global] Instance UserRole_eq_dec : EqDecision UserRole.
Proof. solve_decision. Defined.

(* ===================================================================== *)
(** * Exceptions *)
(* ===================================================================== *)

(** The exception classes that the modelled code throws.  The first three
    are the NestJS classes imported by the validator and the service;
    [ConflictException] is the NestJS class for HTTP 409, which none of
    the pet code constructs; [PrismaRecordNotFound] is what
    [prisma.pet.update] raises when its [where] clause matches no row. *)
Inductive Exception : Type :=
  | NotFoundException (message : string)
  | BadRequestException (message : string)
  | ForbiddenException (message : string)
  | ConflictException (message : string)
  | PrismaRecordNotFound.

#[global] Instance Exception_eq_dec : EqDecision Exception.
Proof. solve_decision. Defined.

Definition message (e : Exception) : string :=
  match e with
  | NotFoundException m | BadRequestException m
  | ForbiddenException m | ConflictException m => m
  | PrismaRecordNotFound => "Record to update not found."
  end.

(** The error taxonomy of the specification (section 7). *)
Inductive ErrorKind : Type :=
  | NotFound
  | InvalidTransition
  | Forbidden
  | Conflict.

#[global] Instance ErrorKind_eq_dec : EqDecision ErrorKind.
Proof. solve_decision. Defined.

(** How a thrown exception is classified in that taxonomy.  A storage
    error belongs to none of the four kinds. *)
Definition errorKind (e : Exception) : option ErrorKind :=
  match e with
  | NotFoundException _ => Some NotFound
  | BadRequestException _ => Some InvalidTransition
  | ForbiddenException _ => Some Forbidden
  | ConflictException _ => Some Conflict
  | PrismaRecordNotFound => None
  end.

(** The kind of error a result carries, if it is an error. *)
Definition failsWith {A : Type} (r : Exception + A) : option ErrorKind :=
  match r with
  | inl e => errorKind e
  | inr _ => None
  end.

Definition succeeds {A : Type} (r : Exception + A) : bool :=
  match r with
  | inl _ => false
  | inr _ => true
  end.

(* ===================================================================== *)
(** * JavaScript helpers *)
(* ===================================================================== *)

(** [Array.prototype.includes] on an array of enum members. *)
Definition includes {A : Type} `{EqDecision A} (l : list A) (x : A) : bool :=
  existsb (λ y, bool_decide (y = x)) l.

(** [Array.prototype.flat] (depth 1). *)
Definition flat {A : Type} (ls : list (list A)) : list A := concat ls.

(** [Set.prototype.add]: a [Set] iterates in insertion order and ignores a
    value it already holds. *)
Definition Set_add {A : Type} `{EqDecision A} (s : list A) (x : A) : list A :=
  if includes s x then s else (s ++ [x])%list.

(** [Array.from(new Set(l))]. *)
Definition Array_from_Set {A : Type} `{EqDecision A} (l : list A) : list A :=
  fold_left Set_add l [].

(** Truthiness of an optional string: [undefined] and [''] are falsy. *)
Definition truthy (s : option string) : bool :=
  match s with
  | None => false
  | Some v => negb (bool_decide (v = EmptyString))
  end.

(** [s || d] for an optional string [s]. *)
Definition or_else (s : option string) (d : string) : string :=
  match s with
  | Some v => if bool_decide (v = EmptyString) then d else v
  | None => d
  end.

(* ===================================================================== *)
(** * [StatusTransitionValidator] *)
(* ===================================================================== *)

Module StatusTransitionValidator.

(** [private static readonly ALLOWED_TRANSITIONS] *)
Definition ALLOWED_TRANSITIONS (s : PetStatus) : list PetStatus :=
  match s with
  | AVAILABLE => [PENDING; IN_CUSTODY]
  | PENDING => [ADOPTED; AVAILABLE]
  | IN_CUSTODY => [AVAILABLE]
  | ADOPTED => []
  end.

(** [private static readonly ADMIN_ONLY_TRANSITIONS] *)
Definition ADMIN_ONLY_TRANSITIONS (s : PetStatus) : list PetStatus :=
  match s with
  | AVAILABLE => []
  | PENDING => []
  | IN_CUSTODY => []
  | ADOPTED => [AVAILABLE]
  end.

(** [Object.values(table)] for a [Record<PetStatus, PetStatus[]>] whose
    keys were written in declaration order. *)
Definition Object_values (table : PetStatus → list PetStatus)
  : list (list PetStatus) :=
  map table PetStatus_values.

(** The five messages [validate] can throw. *)
Definition msg_noop (currentStatus : PetStatus) : string :=
  "Pet status is already " +:+ PetStatus_toString currentStatus
    +:+ ". No transition needed.".

Definition msg_invalid_current (currentStatus : PetStatus) : string :=
  "Invalid current status: " +:+ PetStatus_toString currentStatus.

Definition msg_invalid_new (newStatus : PetStatus) : string :=
  "Invalid new status: " +:+ PetStatus_toString newStatus.

Definition msg_requires_admin (currentStatus newStatus : PetStatus) : string :=
  "Cannot change status from " +:+ PetStatus_toString currentStatus
    +:+ " to " +:+ PetStatus_toString newStatus
    +:+ ". This action requires ADMIN role.".

Definition msg_not_allowed (currentStatus newStatus : PetStatus) : string :=
  "Cannot change status from " +:+ PetStatus_toString currentStatus
    +:+ " to " +:+ PetStatus_toString newStatus
    +:+ ". This transition is not allowed.".

(** [static validate(currentStatus, newStatus, userRole?)]: returns
    [true] or throws a [BadRequestException]. *)
Definition validate (currentStatus newStatus : PetStatus)
    (userRole : option UserRole) : Exception + bool :=
  if bool_decide (currentStatus = newStatus) then
    inl (BadRequestException (msg_noop currentStatus))
  else if negb (includes PetStatus_values currentStatus) then
    inl (BadRequestException (msg_invalid_current currentStatus))
  else if negb (includes (flat (Object_values ALLOWED_TRANSITIONS)) newStatus) then
    inl (BadRequestException (msg_invalid_new newStatus))
  else
    let allowedTransitions := ALLOWED_TRANSITIONS currentStatus in
    let isAllowedTransition := includes allowedTransitions newStatus in
    if isAllowedTransition then inr true
    else
      let adminOnlyTransitions := ADMIN_ONLY_TRANSITIONS currentStatus in
      if includes adminOnlyTransitions newStatus then
        if bool_decide (userRole = Some ADMIN) then inr true
        else inl (BadRequestException
                    (msg_requires_admin currentStatus newStatus))
      else
        inl (BadRequestException (msg_not_allowed currentStatus newStatus)).

(** [static getAllowedTransitions(currentStatus, userRole?)] *)
Definition getAllowedTransitions (currentStatus : PetStatus)
    (userRole : option UserRole) : list PetStatus :=
  let standardTransitions := ALLOWED_TRANSITIONS currentStatus in
  let adminTransitions :=
    if bool_decide (userRole = Some ADMIN)
    then ADMIN_ONLY_TRANSITIONS currentStatus
    else [] in
  Array_from_Set (standardTransitions ++ adminTransitions)%list.

(** [static isTransitionValid]: [validate] with the exception caught. *)
Definition isTransitionValid (currentStatus newStatus : PetStatus)
    (userRole : option UserRole) : bool :=
  match validate currentStatus newStatus userRole with
  | inr b => b
  | inl _ => false
  end.

End StatusTransitionValidator.

(* ===================================================================== *)
(** * The store, the console and the effect monad *)
(* ===================================================================== *)

(** A row of the [pet] table.  Only the columns the lifecycle code reads
    or writes are kept; the descriptive columns (name, species, ...) and
    the joined [currentOwner] are passed through untouched by every
    function below and are left out. *)
Record Pet : Type := mkPet {
  pet_id : string;
  pet_status : PetStatus;
  pet_currentOwnerId : string;
  pet_updatedAt : Z
}.

#[global] Instance Pet_eq_dec : EqDecision Pet.
Proof. solve_decision. Defined.

(** Modelled from the spec: [AdoptionStatus] is declared in
    [adoption-state-machine.service], which is not part of the sources at
    hand; the data model gives the lifecycle
    requested → approved → completed, or rejected. *)
Inductive AdoptionStatus : Type :=
  | REQUESTED
  | APPROVED
  | COMPLETED
  | REJECTED.

#[global] Instance AdoptionStatus_eq_dec : EqDecision AdoptionStatus.
Proof. solve_decision. Defined.

(** A row of the [adoption] table (same remark as for [Pet]). *)
Record Adoption : Type := mkAdoption {
  adoption_id : string;
  adoption_status : AdoptionStatus;
  adoption_petId : string
}.

(** What the code can observe and change: the two tables behind
    [PrismaService] and the lines written by [console.log]. *)
Record World : Type := mkWorld {
  pets : gmap string Pet;
  adoptions : gmap string Adoption;
  console : list string
}.

Definition set_pets (f : gmap string Pet → gmap string Pet) (w : World) : World :=
  mkWorld (f (pets w)) (adoptions w) (console w).

Definition set_adoptions (f : gmap string Adoption → gmap string Adoption)
    (w : World) : World :=
  mkWorld (pets w) (f (adoptions w)) (console w).

Definition set_console (f : list string → list string) (w : World) : World :=
  mkWorld (pets w) (adoptions w) (f (console w)).

(** A computation that may throw and may change the world.  A throw keeps
    the effects performed before it. *)
Definition M (A : Type) : Type := World → (Exception + A) * World.

Definition ret {A : Type} (a : A) : M A := λ w, (inr a, w).

Definition throw {A : Type} (e : Exception) : M A := λ w, (inl e, w).

Definition bind {A B : Type} (m : M A) (k : A → M B) : M B :=
  λ w, match m w with
       | (inl e, w') => (inl e, w')
       | (inr a, w') => k a w'
       end.

(** A synchronous call that may throw but touches nothing. *)
Definition lift {A : Type} (r : Exception + A) : M A := λ w, (r, w).

Declare Scope petm_scope.
Delimit Scope petm_scope with petm.
Notation "x <- m ;; k" := (bind m (λ x, k))
  (at level 100, m at next level, right associativity) : petm_scope.
Notation "m ;; k" := (bind m (λ _, k))
  (at level 100, right associativity) : petm_scope.

(* ===================================================================== *)
(** * [PrismaService], as far as the pet code uses it *)
(* ===================================================================== *)

Module Prisma.

(** [prisma.pet.findUnique({ where: { id } })] *)
Definition pet_findUnique (id : string) : M (option Pet) :=
  λ w, (inr (pets w !! id), w).

(** [prisma.pet.update({ where: { id }, data: { status, updatedAt } })]:
    rewrites the two columns of the row with that id, whatever they
    hold, and returns the new row; throws when there is no such row. *)
Definition pet_update (id : string) (status : PetStatus) (updatedAt : Z)
  : M Pet :=
  λ w, match pets w !! id with
       | Some p =>
           let p' := mkPet (pet_id p) status (pet_currentOwnerId p) updatedAt in
           (inr p', set_pets (insert id p') w)
       | None => (inl PrismaRecordNotFound, w)
       end.

End Prisma.

(* ===================================================================== *)
(** * [PetsService] *)
(* ===================================================================== *)

Module PetsService.

Import StatusTransitionValidator.
Local Open Scope petm_scope.

(** [async getPetById(petId)] *)
Definition getPetById (petId : string) : M Pet :=
  pet <- Prisma.pet_findUnique petId ;;
  match pet with
  | None => throw (NotFoundException ("Pet with ID " +:+ petId +:+ " not found"))
  | Some p => ret p
  end.

(** [private authorizeStatusUpdate(_pet, newStatus, _userId, userRole)] *)
Definition authorizeStatusUpdate (_pet : Pet) (newStatus : PetStatus)
    (_userId : string) (userRole : UserRole) : Exception + unit :=
  if bool_decide (newStatus = ADOPTED) || bool_decide (newStatus = AVAILABLE) then
    if negb (bool_decide (userRole = ADMIN)) then
      inl (ForbiddenException
             ("Only administrators can change pet status to "
                +:+ PetStatus_toString newStatus))
    else inr tt
  else inr tt.

(** The line [logStatusChange] prints. *)
Definition statusChangeLine (petId : string) (oldStatus newStatus : PetStatus)
    (userId reason : option string) : string :=
  "[PET STATUS CHANGE] " +:+ petId +:+ ": "
    +:+ PetStatus_toString oldStatus +:+ " → " +:+ PetStatus_toString newStatus
    +:+ (if truthy userId then " by " +:+ default EmptyString userId else " (system)")
    +:+ (if truthy reason then " - " +:+ default EmptyString reason else EmptyString).

(** [private logStatusChange(petId, oldStatus, newStatus, userId?, reason?)] *)
Definition logStatusChange (petId : string) (oldStatus newStatus : PetStatus)
    (userId reason : option string) : M unit :=
  λ w, (inr tt,
        set_console
          (λ out, (out ++ [statusChangeLine petId oldStatus newStatus userId reason])%list)
          w).

(** [async updatePetStatus(petId, newStatus, userId, userRole, reason?)] *)
Definition updatePetStatus (petId : string) (newStatus : PetStatus)
    (userId : string) (userRole : UserRole) (reason : option string)
    (now : Z) : M Pet :=
  pet <- getPetById petId ;;
  lift (validate (pet_status pet) newStatus (Some userRole)) ;;
  lift (authorizeStatusUpdate pet newStatus userId userRole) ;;
  updatedPet <- Prisma.pet_update petId newStatus now ;;
  logStatusChange petId (pet_status pet) newStatus (Some userId) reason ;;
  ret updatedPet.

(** [async getAllowedTransitions(petId, userRole?)] *)
Definition getAllowedTransitions (petId : string) (userRole : option UserRole)
  : M (list PetStatus) :=
  pet <- getPetById petId ;;
  ret (StatusTransitionValidator.getAllowedTransitions (pet_status pet) userRole).

(** [async changeStatusInternal(petId, newStatus, reason?)] *)
Definition changeStatusInternal (petId : string) (newStatus : PetStatus)
    (reason : option string) (now : Z) : M Pet :=
  pet <- getPetById petId ;;
  lift (validate (pet_status pet) newStatus (Some ADMIN)) ;;
  updatedPet <- Prisma.pet_update petId newStatus now ;;
  logStatusChange petId (pet_status pet) newStatus None
    (Some (or_else reason "System-triggered status change")) ;;
  ret updatedPet.

(** ** The two halves of [updatePetStatus]

    [updatePetStatus] suspends twice: at [await this.getPetById] and at
    [await this.prisma.pet.update].  Between its suspensions a handler
    runs without interruption, and at a suspension another request's
    handler may run.  The first storage call reads; all the checks run
    on what it returned; the second storage call writes. *)

(** From the call to the moment the update is issued: the pet as it was
    read, once it has passed both checks. *)
Definition updatePetStatus_check (petId : string) (newStatus : PetStatus)
    (userId : string) (userRole : UserRole) : M Pet :=
  pet <- getPetById petId ;;
  lift (validate (pet_status pet) newStatus (Some userRole)) ;;
  lift (authorizeStatusUpdate pet newStatus userId userRole) ;;
  ret pet.

(** From the update to the return, given the pet read by the first half. *)
Definition updatePetStatus_write (pet : Pet) (petId : string)
    (newStatus : PetStatus) (userId : string) (reason : option string)
    (now : Z) : M Pet :=
  updatedPet <- Prisma.pet_update petId newStatus now ;;
  logStatusChange petId (pet_status pet) newStatus (Some userId) reason ;;
  ret updatedPet.

End PetsService.

(* ===================================================================== *)
(** * Concurrent requests *)
(* ===================================================================== *)

(** Handlers are request-scoped and run on one event loop: a handler runs
    from one suspension to the next without interruption, and handlers of
    different requests interleave at those suspensions.  A call of
    [updatePetStatus] is therefore a task of two atomic steps, the two
    halves defined in [PetsService]. *)
Module Concurrent.

Import PetsService.

(** The arguments of one call of [updatePetStatus]. *)
Record Call : Type := mkCall {
  call_petId : string;
  call_newStatus : PetStatus;
  call_userId : string;
  call_userRole : UserRole;
  call_reason : option string;
  call_now : Z
}.

Inductive Task : Type :=
  | Ready (c : Call)
  | Awaiting (c : Call) (pet : Pet)
  | Finished (r : Exception + Pet).

(** One atomic step of a task. *)
Definition step (t : Task) (w : World) : Task * World :=
  match t with
  | Ready c =>
      match updatePetStatus_check (call_petId c) (call_newStatus c)
              (call_userId c) (call_userRole c) w with
      | (inl e, w') => (Finished (inl e), w')
      | (inr pet, w') => (Awaiting c pet, w')
      end
  | Awaiting c pet =>
      match updatePetStatus_write pet (call_petId c) (call_newStatus c)
              (call_userId c) (call_reason c) (call_now c) w with
      | (r, w') => (Finished r, w')
      end
  | Finished r => (Finished r, w)
  end.

(** Two tasks under a schedule: [false] lets the first task take a step,
    [true] the second. *)
Fixpoint run (sched : list bool) (t1 t2 : Task) (w : World)
  : Task * Task * World :=
  match sched with
  | [] => (t1, t2, w)
  | false :: sched' => let '(t1', w') := step t1 w in run sched' t1' t2 w'
  | true :: sched' => let '(t2', w') := step t2 w in run sched' t1 t2' w'
  end.

(** The call committed its write. *)
Definition committed (t : Task) : bool :=
  match t with
  | Finished (inr _) => true
  | _ => false
  end.

(** The call was rejected with an error of kind [k]. *)
Definition rejected (k : ErrorKind) (t : Task) : bool :=
  match t with
  | Finished r => bool_decide (failsWith r = Some k)
  | _ => false
  end.

(** The stored status of a pet, if it exists. *)
Definition storedStatus (w : World) (petId : string) : option PetStatus :=
  pet_status <$> pets w !! petId.

(** The call, made alone, passes the existence, policy and
    authorization checks. *)
Definition legalAlone (c : Call) (w : World) : bool :=
  succeeds (fst (updatePetStatus_check (call_petId c) (call_newStatus c)
                   (call_userId c) (call_userRole c) w)).

End Concurrent.

(* ===================================================================== *)
(** * The adoption workflow *)
(* ===================================================================== *)

Module AdoptionService.

Import PetsService.
Local Open Scope petm_scope.

(** Runs [m] as one storage transaction: when [m] throws, the tables are
    as they were before. *)
Definition transaction {A : Type} (m : M A) : M A :=
  λ w, match m w with
       | (inl e, w') => (inl e, mkWorld (pets w) (adoptions w) (console w'))
       | (inr a, w') => (inr a, w')
       end.

(** Modelled from the spec: [AdoptionService.updateAdoptionStatus] is
    called by the controller but its file is not part of the sources at
    hand.  This is its branch for the target [APPROVED], after section
    4.4: the edge is requested → approved; it requires an actor with
    the elevated role; it calls [transitionInternal(petId, PENDING)] if
    the pet was AVAILABLE and rejects with [Conflict] if the pet is not
    in the expected state (AVAILABLE, or PENDING from an earlier
    request); the workflow status and the pet status are persisted in
    one transaction.  Errors follow the fixed precedence of section 7:
    existence, then legality, then authorization. *)
Definition updateAdoptionStatus_APPROVED (id : string) (_userId : string)
    (userRole : UserRole) (reason : option string) (now : Z) : M Adoption :=
  transaction (
    match_adoption <- (λ w, (inr (adoptions w !! id), w)) ;;
    match match_adoption with
    | None => throw (NotFoundException ("Adoption with ID " +:+ id +:+ " not found"))
    | Some adoption =>
        (if bool_decide (adoption_status adoption = REQUESTED) then ret tt
         else throw (BadRequestException "Adoption is not in the requested state")) ;;
        (if bool_decide (userRole = ADMIN) then ret tt
         else throw (ForbiddenException "Only administrators can approve an adoption")) ;;
        pet <- getPetById (adoption_petId adoption) ;;
        match pet_status pet with
        | AVAILABLE =>
            changeStatusInternal (adoption_petId adoption) PENDING reason now ;;
            ret tt
        | PENDING => ret tt
        | IN_CUSTODY | ADOPTED =>
            throw (ConflictException "Pet is no longer available for this adoption")
        end ;;
        let approved :=
          mkAdoption (adoption_id adoption) APPROVED (adoption_petId adoption) in
        (λ w, (inr approved, set_adoptions (insert id approved) w))
    end).

End AdoptionService.

Module AdoptionController.

(** [approveAdoption(req, id)] of [adoption.controller.ts]: behind
    [@Roles(Role.ADMIN)], it forwards to the service with the target
    [AdoptionStatus.APPROVED] and a fixed reason. *)
Definition approveAdoption (req_userId : string) (req_role : UserRole)
    (id : string) (now : Z) : M Adoption :=
  AdoptionService.updateAdoptionStatus_APPROVED id req_userId req_role
    (Some "Adoption approved by admin") now.

End AdoptionController.

(* ===================================================================== *)
(** * The edge table of the specification *)
(* ===================================================================== *)

(** The static edge table as the specification prints it (section 4.1),
    kept apart from the two tables of the validator so that the two can
    be compared. *)
Module TransitionPolicy.

Definition ordinaryEdges : list (PetStatus * PetStatus) :=
  [ (AVAILABLE, PENDING); (AVAILABLE, IN_CUSTODY);
    (PENDING, ADOPTED); (PENDING, AVAILABLE);
    (IN_CUSTODY, AVAILABLE) ].

Definition elevatedOnlyEdges : list (PetStatus * PetStatus) :=
  [ (ADOPTED, AVAILABLE) ].

Definition isOrdinary (from to : PetStatus) : bool :=
  includes ordinaryEdges (from, to).

Definition isElevatedOnly (from to : PetStatus) : bool :=
  includes elevatedOnlyEdges (from, to).

(** The pair is present in the table, in either column. *)
Definition inTable (from to : PetStatus) : bool :=
  isOrdinary from to || isElevatedOnly from to.

End TransitionPolicy.

(* ===================================================================== *)
(** * Vocabulary for the statements *)
(* ===================================================================== *)

(** The row after a status update. *)
Definition updated (pet : Pet) (newStatus : PetStatus) (now : Z) : Pet :=
  mkPet (pet_id pet) newStatus (pet_currentOwnerId pet) now.

(** The world after a committed status change. *)
Definition afterCommit (w : World) (petId : string) (stored : Pet)
    (newStatus : PetStatus) (now : Z) (line : string) : World :=
  mkWorld (<[petId := updated stored newStatus now]> (pets w))
          (adoptions w) (console w ++ [line])%list.

(** Worlds for the closed examples: one pet, in a chosen status, and one
    adoption request for it. *)
Module Examples.

Definition buddy (s : PetStatus) : Pet := mkPet "pet-1" s "owner-1" 0.

Definition world (s : PetStatus) : World :=
  mkWorld {[ "pet-1" := buddy s ]} ∅ [].

Definition request : Adoption := mkAdoption "adoption-1" REQUESTED "pet-1".

Definition world_with_request (s : PetStatus) : World :=
  mkWorld {[ "pet-1" := buddy s ]} {[ "adoption-1" := request ]} [].

End Examples.

(* ===================================================================== *)
(** * The rest of the validator and of the service *)
(* ===================================================================== *)

(** The two remaining methods of [StatusTransitionValidator]. *)
Module StatusTransitionInfo.

Import StatusTransitionValidator.

(** [private static getStatusDescription(status)] *)
Definition getStatusDescription (status : PetStatus) : string :=
  match status with
  | AVAILABLE => "Pet is available for adoption"
  | PENDING => "Pet has a pending adoption request"
  | IN_CUSTODY => "Pet is in temporary custody"
  | ADOPTED => "Pet has been adopted"
  end.

(** The object that [getTransitionInfo] returns. *)
Record TransitionInfo : Type := mkTransitionInfo {
  currentStatus : PetStatus;
  allowedTransitions : list PetStatus;
  adminOnlyTransitions : list PetStatus;
  description : string
}.

(** [static getTransitionInfo(currentStatus)] *)
Definition getTransitionInfo (currentStatus : PetStatus) : TransitionInfo :=
  mkTransitionInfo currentStatus
    (ALLOWED_TRANSITIONS currentStatus)
    (ADMIN_ONLY_TRANSITIONS currentStatus)
    (getStatusDescription currentStatus).

End StatusTransitionInfo.

(** The other [PrismaService] calls of [pets.service.ts]. *)
Module PrismaCrud.

(** [prisma.pet.findMany({ where: { status } })].  No [orderBy] is given,
    so the rows come in storage order; here that is the order in which the
    map enumerates them, and nothing below depends on it. *)
Definition pet_findMany_status (status : PetStatus) : M (list Pet) :=
  λ w, (inr (filter (λ p, pet_status p = status) ((map_to_list (pets w)).*2)), w).

(** [prisma.pet.update({ where: { id }, data })] for a [data] object given
    as the change it makes to the row; throws when there is no such row. *)
Definition pet_update_data (id : string) (data : Pet → Pet) : M Pet :=
  λ w, match pets w !! id with
       | Some p => (inr (data p), set_pets (insert id (data p)) w)
       | None => (inl PrismaRecordNotFound, w)
       end.

(** [prisma.pet.delete({ where: { id } })]: returns the deleted row;
    throws when there is no such row. *)
Definition pet_delete (id : string) : M Pet :=
  λ w, match pets w !! id with
       | Some p => (inr p, set_pets (delete id) w)
       | None => (inl PrismaRecordNotFound, w)
       end.

End PrismaCrud.

(** The methods of [PetsService] beside the status lifecycle.  [create] is
    left out: the id of the new row is chosen by the database. *)
Module PetsServiceCrud.

Local Open Scope petm_scope.

(** [async getTransitionInfo(petId)] *)
Definition getTransitionInfo (petId : string)
  : M StatusTransitionInfo.TransitionInfo :=
  pet <- PetsService.getPetById petId ;;
  ret (StatusTransitionInfo.getTransitionInfo (pet_status pet)).

(** [async findAll()] *)
Definition findAll : M (list Pet) :=
  PrismaCrud.pet_findMany_status AVAILABLE.

(** [async findOne(id)] *)
Definition findOne (id : string) : M Pet :=
  pet <- Prisma.pet_findUnique id ;;
  match pet with
  | None => throw (NotFoundException "Pet not found")
  | Some p => ret p
  end.

(** [async update(id, updatePetDto, userId, userRole)].  The role is a
    plain [string] here.  The declaration of [UpdatePetDto] is not part of
    the sources at hand: the object is taken as the change it makes to the
    row. *)
Definition update (id : string) (updatePetDto : Pet → Pet)
    (userId : string) (userRole : string) : M Pet :=
  pet <- Prisma.pet_findUnique id ;;
  match pet with
  | None => throw (NotFoundException "Pet not found")
  | Some p =>
      if negb (bool_decide (pet_currentOwnerId p = userId))
         && negb (bool_decide (userRole = "ADMIN"))
      then throw (ForbiddenException "Not authorized")
      else PrismaCrud.pet_update_data id updatePetDto
  end.

(** [async remove(id, userRole)] *)
Definition remove (id : string) (userRole : string) : M string :=
  pet <- Prisma.pet_findUnique id ;;
  match pet with
  | None => throw (NotFoundException "Pet not found")
  | Some _ =>
      if negb (bool_decide (userRole = "ADMIN"))
      then throw (ForbiddenException "Only admin can delete")
      else PrismaCrud.pet_delete id ;; ret "Pet deleted successfully"
  end.

End PetsServiceCrud.

(** Calls of the service one after the other. *)
Module Sequence.

Local Open Scope petm_scope.

(** [updatePetStatus] called once for each status of [targets], in order,
    by the same actor; stops at the first call that throws. *)
Fixpoint updateAll (petId : string) (targets : list PetStatus)
    (userId : string) (userRole : UserRole) (reason : option string)
    (now : Z) : M unit :=
  match targets with
  | [] => ret tt
  | newStatus :: rest =>
      PetsService.updatePetStatus petId newStatus userId userRole reason now ;;
      updateAll petId rest userId userRole reason now
  end.

(** Each status of [path] is a transition [validate] accepts from the one
    before it, starting at [from]. *)
Fixpoint validPath (userRole : option UserRole) (from : PetStatus)
    (path : list PetStatus) : bool :=
  match path with
  | [] => true
  | newStatus :: rest =>
      StatusTransitionValidator.isTransitionValid from newStatus userRole
      && validPath userRole newStatus rest
  end.

(** A shortest accepted path for an ADMIN from one status to another. *)
Definition route (from to : PetStatus) : list PetStatus :=
  match from, to with
  | AVAILABLE, AVAILABLE => [PENDING; AVAILABLE]
  | AVAILABLE, PENDING => [PENDING]
  | AVAILABLE, IN_CUSTODY => [IN_CUSTODY]
  | AVAILABLE, ADOPTED => [PENDING; ADOPTED]
  | PENDING, AVAILABLE => [AVAILABLE]
  | PENDING, PENDING => [AVAILABLE; PENDING]
  | PENDING, IN_CUSTODY => [AVAILABLE; IN_CUSTODY]
  | PENDING, ADOPTED => [ADOPTED]
  | IN_CUSTODY, AVAILABLE => [AVAILABLE]
  | IN_CUSTODY, PENDING => [AVAILABLE; PENDING]
  | IN_CUSTODY, IN_CUSTODY => [AVAILABLE; IN_CUSTODY]
  | IN_CUSTODY, ADOPTED => [AVAILABLE; PENDING; ADOPTED]
  | ADOPTED, AVAILABLE => [AVAILABLE]
  | ADOPTED, PENDING => [AVAILABLE; PENDING]
  | ADOPTED, IN_CUSTODY => [AVAILABLE; IN_CUSTODY]
  | ADOPTED, ADOPTED => [AVAILABLE; PENDING; ADOPTED]
  end.

End Sequence.

(** [String.prototype.includes]: [sub] occurs somewhere in [s]. *)
Fixpoint String_includes (s sub : string) : bool :=
  String.prefix sub s
  || match s with
     | EmptyString => false
     | String _ s' => String_includes s' sub
     end.

(* ===================================================================== *)
(** * Properties of the helpers *)
(* ===================================================================== *)

Section Helpers.

Context {A : Type} `{EqDecision A}.

Lemma includes_elem_of (l : list A) (x : A) :
  includes l x = true ↔ x ∈ l.
Proof.
  unfold includes. rewrite existsb_exists. split.
  - intros (y & Hin & Heq). apply bool_decide_eq_true in Heq. subst y.
    by apply list_elem_of_In.
  - intros Hin. exists x. split; [by apply list_elem_of_In|].
    by apply bool_decide_eq_true.
Qed.

Lemma includes_not_elem_of (l : list A) (x : A) :
  includes l x = false ↔ x ∉ l.
Proof.
  rewrite <- includes_elem_of. destruct (includes l x); split; congruence.
Qed.

Lemma Set_add_elem_of (s : list A) (x y : A) :
  y ∈ Set_add s x ↔ y ∈ s ∨ y = x.
Proof.
  unfold Set_add. destruct (includes s x) eqn:E.
  - apply includes_elem_of in E. split; [by left|].
    intros [?| ->]; done.
  - rewrite elem_of_app, list_elem_of_singleton. done.
Qed.

Lemma Set_add_NoDup (s : list A) (x : A) :
  NoDup s → NoDup (Set_add s x).
Proof.
  intros Hs. unfold Set_add. destruct (includes s x) eqn:E; [done|].
  apply includes_not_elem_of in E.
  apply NoDup_app. split_and!; [done| |apply NoDup_singleton].
  intros y Hy Hyx. apply list_elem_of_singleton in Hyx. by subst y.
Qed.

Lemma fold_Set_add_NoDup (l acc : list A) :
  NoDup acc → NoDup (fold_left Set_add l acc).
Proof.
  revert acc. induction l as [|x l IH]; intros acc Hacc; simpl; [done|].
  apply IH. by apply Set_add_NoDup.
Qed.

Lemma fold_Set_add_elem_of (l acc : list A) (y : A) :
  y ∈ fold_left Set_add l acc ↔ y ∈ acc ∨ y ∈ l.
Proof.
  revert acc. induction l as [|x l IH]; intros acc; simpl.
  - rewrite elem_of_nil. tauto.
  - rewrite IH, Set_add_elem_of, elem_of_cons. tauto.
Qed.

(** A [Set] built from an array never yields a value twice. *)
Lemma Array_from_Set_NoDup (l : list A) : NoDup (Array_from_Set l).
Proof. apply fold_Set_add_NoDup, NoDup_nil_2. Qed.

(** It yields exactly the values of the array. *)
Lemma Array_from_Set_elem_of (l : list A) (y : A) :
  y ∈ Array_from_Set l ↔ y ∈ l.
Proof.
  unfold Array_from_Set. rewrite fold_Set_add_elem_of, elem_of_nil. tauto.
Qed.

Lemma fold_Set_add_fresh (l acc : list A) :
  NoDup (acc ++ l) → fold_left Set_add l acc = (acc ++ l)%list.
Proof.
  revert acc. induction l as [|x l IH]; intros acc Hnd; simpl.
  - by rewrite app_nil_r.
  - assert (Hx : x ∉ acc).
    { apply NoDup_app in Hnd as (_ & Hdisj & _).
      intros Hin. apply (Hdisj x Hin). left. }
    unfold Set_add at 2. apply includes_not_elem_of in Hx. rewrite Hx.
    rewrite IH; [by rewrite <- app_assoc|].
    by rewrite <- app_assoc.
Qed.

(** On an array without repetition it is the identity, order included. *)
Lemma Array_from_Set_id (l : list A) : NoDup l → Array_from_Set l = l.
Proof. intros Hl. unfold Array_from_Set. by rewrite fold_Set_add_fresh. Qed.

End Helpers.

(* ===================================================================== *)
(** * The validator against the edge table *)
(* ===================================================================== *)

Section ValidatorFacts.

Import StatusTransitionValidator TransitionPolicy.

(** The validator's two tables hold the edges of the specification's
    table, column by column. *)
Lemma tables_agree (from to : PetStatus) :
  isOrdinary from to = includes (ALLOWED_TRANSITIONS from) to
  ∧ isElevatedOnly from to = includes (ADMIN_ONLY_TRANSITIONS from) to.
Proof. destruct from, to; split; reflexivity. Qed.

(** No row of either table repeats a target, and no target sits in both
    columns of one row. *)
Lemma rows_NoDup (from : PetStatus) :
  NoDup (ALLOWED_TRANSITIONS from ++ ADMIN_ONLY_TRANSITIONS from).
Proof.
  destruct from; apply (bool_decide_unpack _); exact I.
Qed.

(** No table has the no-op edge. *)
Lemma no_noop_edge (s : PetStatus) : inTable s s = false.
Proof. by destruct s. Qed.

(** Every status is a target somewhere in [ALLOWED_TRANSITIONS]. *)
Lemma every_status_is_a_target (newStatus : PetStatus) :
  includes (flat (Object_values ALLOWED_TRANSITIONS)) newStatus = true.
Proof. by destruct newStatus. Qed.

(** [validate] decided by the edge table alone. *)
Lemma validate_by_table (currentStatus newStatus : PetStatus)
    (userRole : option UserRole) :
  validate currentStatus newStatus userRole =
    if bool_decide (currentStatus = newStatus) then
      inl (BadRequestException (msg_noop currentStatus))
    else if isOrdinary currentStatus newStatus then inr true
    else if isElevatedOnly currentStatus newStatus then
      if bool_decide (userRole = Some ADMIN) then inr true
      else inl (BadRequestException (msg_requires_admin currentStatus newStatus))
    else inl (BadRequestException (msg_not_allowed currentStatus newStatus)).
Proof.
  unfold validate.
  destruct (tables_agree currentStatus newStatus) as [-> ->].
  rewrite every_status_is_a_target.
  case_bool_decide; [done|].
  by destruct currentStatus.
Qed.

(** Whatever [validate] throws is a [BadRequestException]. *)
Lemma validate_throws_BadRequest (currentStatus newStatus : PetStatus)
    (userRole : option UserRole) (e : Exception) :
  validate currentStatus newStatus userRole = inl e →
  errorKind e = Some InvalidTransition.
Proof.
  rewrite validate_by_table.
  repeat (case_bool_decide || case_match); intros [= <-]; done.
Qed.

(** Off the table, [validate] throws for every role. *)
Lemma validate_off_table (currentStatus newStatus : PetStatus)
    (userRole : option UserRole) :
  inTable currentStatus newStatus = false →
  ∃ m, validate currentStatus newStatus userRole = inl (BadRequestException m).
Proof.
  unfold inTable. intros [Ho He]%orb_false_iff.
  rewrite validate_by_table, Ho, He.
  case_bool_decide; eauto.
Qed.

(** On the table, [validate] accepts the elevated role. *)
Lemma validate_on_table_ADMIN (currentStatus newStatus : PetStatus) :
  inTable currentStatus newStatus = true →
  validate currentStatus newStatus (Some ADMIN) = inr true.
Proof.
  intros Hin. rewrite validate_by_table.
  case_bool_decide as Heq.
  - subst newStatus. by rewrite no_noop_edge in Hin.
  - unfold inTable in Hin.
    destruct (isOrdinary _ _); [done|]. simpl in Hin. by rewrite Hin.
Qed.

End ValidatorFacts.

(** C10: for every pair of [PetStatus] values and every role, the guard of
    the 'Invalid new status' branch of [validate] is false, because the
    requested status is among the flattened targets of
    [ALLOWED_TRANSITIONS]; and whatever [validate] throws, its message
    does not begin with 'Invalid new status'. *)
Theorem validate_invalid_new_status_unreachable
    (currentStatus newStatus : PetStatus) (userRole : option UserRole) :
  negb (includes
          (flat (StatusTransitionValidator.Object_values
                   StatusTransitionValidator.ALLOWED_TRANSITIONS))
          newStatus) = false
  ∧ match StatusTransitionValidator.validate currentStatus newStatus userRole with
    | inl e => String.prefix "Invalid new status" (message e) = false
    | inr _ => True
    end.
Proof.
  split.
  - by rewrite every_status_is_a_target.
  - rewrite validate_by_table.
    destruct currentStatus, newStatus; try exact I;
      destruct userRole as [[]|]; try exact I; reflexivity.
Qed.

(** C6: for every status and every role (or none),
    [getAllowedTransitions] returns a list without duplicates; it is the
    row of ordinary targets followed by the row of elevated-only targets
    when the role is ADMIN, and the row of ordinary targets alone
    otherwise; a status is in it exactly when the edge is ordinary, or
    elevated-only with the role ADMIN; so for any other role it holds no
    elevated-only target of the current status. *)
Theorem getAllowedTransitions_union_no_dup
    (currentStatus : PetStatus) (userRole : option UserRole) :
  let result :=
    StatusTransitionValidator.getAllowedTransitions currentStatus userRole in
  NoDup result
  ∧ result =
      (StatusTransitionValidator.ALLOWED_TRANSITIONS currentStatus ++
       if bool_decide (userRole = Some ADMIN)
       then StatusTransitionValidator.ADMIN_ONLY_TRANSITIONS currentStatus
       else [])%list
  ∧ (∀ t, t ∈ result ↔
          TransitionPolicy.isOrdinary currentStatus t = true
          ∨ (userRole = Some ADMIN
             ∧ TransitionPolicy.isElevatedOnly currentStatus t = true))
  ∧ (userRole ≠ Some ADMIN →
     ∀ t, TransitionPolicy.isElevatedOnly currentStatus t = true → t ∉ result).
Proof.
  cbv zeta. unfold StatusTransitionValidator.getAllowedTransitions.
  assert (Hmem : ∀ t,
    t ∈ Array_from_Set
          (StatusTransitionValidator.ALLOWED_TRANSITIONS currentStatus ++
           if bool_decide (userRole = Some ADMIN)
           then StatusTransitionValidator.ADMIN_ONLY_TRANSITIONS currentStatus
           else [])%list
    ↔ TransitionPolicy.isOrdinary currentStatus t = true
      ∨ (userRole = Some ADMIN
         ∧ TransitionPolicy.isElevatedOnly currentStatus t = true)).
  { intros t. rewrite Array_from_Set_elem_of, elem_of_app.
    destruct (tables_agree currentStatus t) as [-> ->].
    rewrite !includes_elem_of.
    case_bool_decide as Hr; [tauto|].
    rewrite elem_of_nil. tauto. }
  split_and!.
  - apply Array_from_Set_NoDup.
  - apply Array_from_Set_id.
    case_bool_decide; [apply rows_NoDup|].
    rewrite app_nil_r. pose proof (rows_NoDup currentStatus) as Hnd.
    by apply NoDup_app in Hnd as (? & _ & _).
  - exact Hmem.
  - intros Hrole t Helev Hin. apply Hmem in Hin as [Hord|[Hadm _]]; [|done].
    by destruct currentStatus, t.
Qed.

(* ===================================================================== *)
(** * The service, one call at a time *)
(* ===================================================================== *)

Section ServiceFacts.

Import StatusTransitionValidator TransitionPolicy PetsService.

Lemma getPetById_found (w : World) (petId : string) (pet : Pet) :
  pets w !! petId = Some pet → getPetById petId w = (inr pet, w).
Proof. intros H. unfold getPetById, bind, Prisma.pet_findUnique. by rewrite H. Qed.

Lemma getPetById_missing (w : World) (petId : string) :
  pets w !! petId = None →
  getPetById petId w =
    (inl (NotFoundException ("Pet with ID " +:+ petId +:+ " not found")), w).
Proof. intros H. unfold getPetById, bind, Prisma.pet_findUnique. by rewrite H. Qed.

(** [updatePetStatus] is its two halves in sequence. *)
Lemma updatePetStatus_halves (petId : string) (newStatus : PetStatus)
    (userId : string) (userRole : UserRole) (reason : option string)
    (now : Z) (w : World) :
  updatePetStatus petId newStatus userId userRole reason now w =
    bind (updatePetStatus_check petId newStatus userId userRole)
         (λ pet, updatePetStatus_write pet petId newStatus userId reason now) w.
Proof.
  unfold updatePetStatus, updatePetStatus_check, updatePetStatus_write, bind, lift, ret.
  destruct (getPetById petId w) as [[e|pet] w']; [done|].
  destruct (validate _ _ _); [done|].
  by destruct (authorizeStatusUpdate _ _ _ _).
Qed.

(** The first half on an existing pet: the two checks, and no write. *)
Lemma updatePetStatus_check_found (w : World) (petId : string) (pet : Pet)
    (newStatus : PetStatus) (userId : string) (userRole : UserRole) :
  pets w !! petId = Some pet →
  updatePetStatus_check petId newStatus userId userRole w =
    match validate (pet_status pet) newStatus (Some userRole) with
    | inl e => (inl e, w)
    | inr _ =>
        match authorizeStatusUpdate pet newStatus userId userRole with
        | inl e => (inl e, w)
        | inr _ => (inr pet, w)
        end
    end.
Proof.
  intros H. unfold updatePetStatus_check, bind. rewrite (getPetById_found _ _ _ H).
  unfold lift, ret. destruct (validate _ _ _); [done|].
  by destruct (authorizeStatusUpdate _ _ _ _).
Qed.

(** The second half writes whatever the row holds by then. *)
Lemma updatePetStatus_write_found (w : World) (petId : string)
    (pet stored : Pet) (newStatus : PetStatus) (userId : string)
    (reason : option string) (now : Z) :
  pets w !! petId = Some stored →
  updatePetStatus_write pet petId newStatus userId reason now w =
    (inr (updated stored newStatus now),
     afterCommit w petId stored newStatus now
       (statusChangeLine petId (pet_status pet) newStatus (Some userId) reason)).
Proof.
  intros H. unfold updatePetStatus_write, bind, Prisma.pet_update. by rewrite H.
Qed.

(** [updatePetStatus] on an existing pet. *)
Lemma updatePetStatus_found (w : World) (petId : string) (pet : Pet)
    (newStatus : PetStatus) (userId : string) (userRole : UserRole)
    (reason : option string) (now : Z) :
  pets w !! petId = Some pet →
  updatePetStatus petId newStatus userId userRole reason now w =
    match validate (pet_status pet) newStatus (Some userRole) with
    | inl e => (inl e, w)
    | inr _ =>
        match authorizeStatusUpdate pet newStatus userId userRole with
        | inl e => (inl e, w)
        | inr _ =>
            (inr (updated pet newStatus now),
             afterCommit w petId pet newStatus now
               (statusChangeLine petId (pet_status pet) newStatus
                  (Some userId) reason))
        end
    end.
Proof.
  intros H. rewrite updatePetStatus_halves. unfold bind.
  rewrite (updatePetStatus_check_found _ _ _ _ _ _ H).
  destruct (validate _ _ _); [done|].
  destruct (authorizeStatusUpdate _ _ _ _); [done|].
  by apply updatePetStatus_write_found.
Qed.

(** [changeStatusInternal] on an existing pet. *)
Lemma changeStatusInternal_found (w : World) (petId : string) (pet : Pet)
    (newStatus : PetStatus) (reason : option string) (now : Z) :
  pets w !! petId = Some pet →
  changeStatusInternal petId newStatus reason now w =
    match validate (pet_status pet) newStatus (Some ADMIN) with
    | inl e => (inl e, w)
    | inr _ =>
        (inr (updated pet newStatus now),
         afterCommit w petId pet newStatus now
           (statusChangeLine petId (pet_status pet) newStatus None
              (Some (or_else reason "System-triggered status change"))))
    end.
Proof.
  intros H. unfold changeStatusInternal, bind.
  rewrite (getPetById_found _ _ _ H). unfold lift.
  destruct (validate _ _ _); [done|].
  unfold Prisma.pet_update. by rewrite H.
Qed.

(** The authorization check lets the elevated role through. *)
Lemma authorizeStatusUpdate_ADMIN (pet : Pet) (newStatus : PetStatus)
    (userId : string) :
  authorizeStatusUpdate pet newStatus userId ADMIN = inr tt.
Proof. by destruct newStatus. Qed.

(** For any other role it depends on the target alone. *)
Lemma authorizeStatusUpdate_other (pet : Pet) (newStatus : PetStatus)
    (userId : string) (userRole : UserRole) :
  userRole ≠ ADMIN →
  authorizeStatusUpdate pet newStatus userId userRole =
    if bool_decide (newStatus = ADOPTED) || bool_decide (newStatus = AVAILABLE)
    then inl (ForbiddenException
                ("Only administrators can change pet status to "
                   +:+ PetStatus_toString newStatus))
    else inr tt.
Proof.
  intros Hr. unfold authorizeStatusUpdate.
  by rewrite (bool_decide_eq_false_2 _ Hr).
Qed.

(** Off the table, the service rejects the call in the validator, before
    the authorization check and before any write. *)
Lemma updatePetStatus_off_table
    (w : World) (petId : string) (pet : Pet) (newStatus : PetStatus)
    (userId : string) (userRole : UserRole) (reason : option string) (now : Z) :
  pets w !! petId = Some pet →
  inTable (pet_status pet) newStatus = false →
  failsWith (fst (updatePetStatus petId newStatus userId userRole reason now w))
    = Some InvalidTransition
  ∧ snd (updatePetStatus petId newStatus userId userRole reason now w) = w.
Proof.
  intros Hpet Hoff. rewrite (updatePetStatus_found _ _ _ _ _ _ _ _ Hpet).
  destruct (validate_off_table _ _ (Some userRole) Hoff) as [m ->]. done.
Qed.

End ServiceFacts.

Section ExampleFacts.

Import Examples.

Lemma world_lookup (s : PetStatus) : pets (world s) !! "pet-1" = Some (buddy s).
Proof. apply lookup_singleton_eq. Qed.

Lemma world_lookup_other (s : PetStatus) : pets (world s) !! "pet-2" = None.
Proof. by apply lookup_singleton_ne. Qed.

Lemma world_with_request_pet (s : PetStatus) :
  pets (world_with_request s) !! "pet-1" = Some (buddy s).
Proof. apply lookup_singleton_eq. Qed.

Lemma world_with_request_adoption (s : PetStatus) :
  adoptions (world_with_request s) !! "adoption-1" = Some request.
Proof. apply lookup_singleton_eq. Qed.

End ExampleFacts.

(* ===================================================================== *)
(** * One call of the service against the edge table *)
(* ===================================================================== *)

(** C2: for an existing pet, any requested status such that the pair
    (stored status, requested status) is in neither column of the edge
    table, and any actor, [updatePetStatus] fails with an error of kind
    InvalidTransition and writes nothing.  The four no-op pairs are such
    pairs ([no_noop_edge]). *)
Theorem updatePetStatus_off_table_InvalidTransition
    (w : World) (petId : string) (pet : Pet) (newStatus : PetStatus)
    (userId : string) (userRole : UserRole) (reason : option string) (now : Z) :
  pets w !! petId = Some pet →
  TransitionPolicy.inTable (pet_status pet) newStatus = false →
  let r := PetsService.updatePetStatus petId newStatus userId userRole reason now w in
  failsWith (fst r) = Some InvalidTransition ∧ snd r = w.
Proof.
  intros Hpet Hoff. cbv zeta.
  by apply (updatePetStatus_off_table w petId pet).
Qed.

Lemma updatePetStatus_off_table_InvalidTransition_witness :
  pets (Examples.world AVAILABLE) !! "pet-1" = Some (Examples.buddy AVAILABLE)
  ∧ TransitionPolicy.inTable (pet_status (Examples.buddy AVAILABLE)) AVAILABLE = false
  ∧ failsWith
      (fst (PetsService.updatePetStatus "pet-1" AVAILABLE "admin-1" ADMIN None 7
              (Examples.world AVAILABLE))) = Some InvalidTransition
  ∧ snd (PetsService.updatePetStatus "pet-1" AVAILABLE "admin-1" ADMIN None 7
           (Examples.world AVAILABLE)) = Examples.world AVAILABLE.
Proof.
  split; [apply world_lookup|]. split; [reflexivity|].
  apply (updatePetStatus_off_table_InvalidTransition
           (Examples.world AVAILABLE) "pet-1" (Examples.buddy AVAILABLE)
           AVAILABLE "admin-1" ADMIN None 7).
  - apply world_lookup.
  - reflexivity.
Defined.

(** C4: for a pet id that is not in the store, every requested status and
    every actor, [updatePetStatus] fails with an error of kind NotFound,
    hence neither Forbidden nor InvalidTransition, and writes nothing. *)
Theorem updatePetStatus_missing_NotFound
    (w : World) (petId : string) (newStatus : PetStatus)
    (userId : string) (userRole : UserRole) (reason : option string) (now : Z) :
  pets w !! petId = None →
  let r := PetsService.updatePetStatus petId newStatus userId userRole reason now w in
  failsWith (fst r) = Some NotFound ∧ snd r = w.
Proof.
  intros Hnone. cbv zeta. unfold PetsService.updatePetStatus, bind.
  by rewrite (getPetById_missing _ _ Hnone).
Qed.

Lemma updatePetStatus_missing_NotFound_witness :
  pets (Examples.world ADOPTED) !! "pet-2" = None
  ∧ failsWith
      (fst (PetsService.updatePetStatus "pet-2" AVAILABLE "user-1" USER None 7
              (Examples.world ADOPTED))) = Some NotFound
  ∧ snd (PetsService.updatePetStatus "pet-2" AVAILABLE "user-1" USER None 7
           (Examples.world ADOPTED)) = Examples.world ADOPTED.
Proof.
  split; [apply world_lookup_other|].
  apply (updatePetStatus_missing_NotFound
           (Examples.world ADOPTED) "pet-2" AVAILABLE "user-1" USER None 7).
  apply world_lookup_other.
Defined.

(** C3, as the specification states it, fails: an adopted pet, a USER
    asking for AVAILABLE.  The call is rejected by the validator with a
    [BadRequestException], kind InvalidTransition, and not with Forbidden. *)
Lemma elevated_edge_USER_not_Forbidden :
  let r := PetsService.updatePetStatus "pet-1" AVAILABLE "user-1" USER None 7
             (Examples.world ADOPTED) in
  failsWith (fst r) = Some InvalidTransition
  ∧ failsWith (fst r) ≠ Some Forbidden.
Proof.
  cbv zeta. rewrite (updatePetStatus_found _ _ _ _ _ _ _ _ (world_lookup ADOPTED)).
  split; [reflexivity|discriminate].
Qed.

(** C3, amended: on the elevated-only edge ADOPTED → AVAILABLE, a request
    by an actor whose role is not ADMIN is rejected by the validator with
    the [BadRequestException] saying that the action requires the ADMIN
    role (kind InvalidTransition), and nothing is written; the same
    request by an ADMIN succeeds and stores AVAILABLE. *)
Theorem elevated_edge_by_role
    (w : World) (petId : string) (pet : Pet) (userId : string)
    (userRole : UserRole) (reason : option string) (now : Z) :
  pets w !! petId = Some pet →
  pet_status pet = ADOPTED →
  let r := PetsService.updatePetStatus petId AVAILABLE userId userRole reason now w in
  (userRole ≠ ADMIN →
     r = (inl (BadRequestException
                 (StatusTransitionValidator.msg_requires_admin ADOPTED AVAILABLE)), w)
     ∧ failsWith (fst r) = Some InvalidTransition)
  ∧ (userRole = ADMIN →
     fst r = inr (updated pet AVAILABLE now)
     ∧ pets (snd r) !! petId = Some (updated pet AVAILABLE now)).
Proof.
  intros Hpet Hst. cbv zeta. rewrite (updatePetStatus_found _ _ _ _ _ _ _ _ Hpet), Hst.
  split.
  - intros Hr. by destruct userRole.
  - intros ->. simpl. split; [done|]. apply lookup_insert_eq.
Qed.

Lemma elevated_edge_by_role_witness :
  pets (Examples.world ADOPTED) !! "pet-1" = Some (Examples.buddy ADOPTED)
  ∧ pet_status (Examples.buddy ADOPTED) = ADOPTED
  ∧ fst (PetsService.updatePetStatus "pet-1" AVAILABLE "admin-1" ADMIN None 7
           (Examples.world ADOPTED))
    = inr (updated (Examples.buddy ADOPTED) AVAILABLE 7).
Proof.
  split; [apply world_lookup|]. split; [reflexivity|].
  apply (elevated_edge_by_role (Examples.world ADOPTED) "pet-1"
           (Examples.buddy ADOPTED) "admin-1" ADMIN None 7
           (world_lookup ADOPTED) eq_refl).
  reflexivity.
Defined.

(** C8, as stated, fails: an available pet, a USER asking for AVAILABLE.
    The target is AVAILABLE and the role is not ADMIN, yet the error is the
    validator's no-op rejection, kind InvalidTransition, not Forbidden. *)
Lemma non_admin_target_AVAILABLE_not_Forbidden :
  let r := PetsService.updatePetStatus "pet-1" AVAILABLE "user-1" USER None 7
             (Examples.world AVAILABLE) in
  failsWith (fst r) = Some InvalidTransition
  ∧ failsWith (fst r) ≠ Some Forbidden.
Proof.
  cbv zeta. rewrite (updatePetStatus_found _ _ _ _ _ _ _ _ (world_lookup AVAILABLE)).
  split; [reflexivity|discriminate].
Qed.

(** C8, amended: for an existing pet and an actor whose role is not ADMIN,
    [updatePetStatus] rejects every request whose target is ADOPTED or
    AVAILABLE and writes nothing; the error is Forbidden exactly when the
    edge is an ordinary edge of the table (PENDING → ADOPTED,
    PENDING → AVAILABLE, IN_CUSTODY → AVAILABLE) and is the validator's
    InvalidTransition otherwise.  So the ordinary edges PENDING → AVAILABLE
    and IN_CUSTODY → AVAILABLE cannot be taken by USER or SHELTER. *)
Theorem non_admin_target_ADOPTED_or_AVAILABLE
    (w : World) (petId : string) (pet : Pet) (newStatus : PetStatus)
    (userId : string) (userRole : UserRole) (reason : option string) (now : Z) :
  pets w !! petId = Some pet →
  userRole ≠ ADMIN →
  newStatus = ADOPTED ∨ newStatus = AVAILABLE →
  let r := PetsService.updatePetStatus petId newStatus userId userRole reason now w in
  snd r = w
  ∧ failsWith (fst r) =
      (if TransitionPolicy.isOrdinary (pet_status pet) newStatus
       then Some Forbidden else Some InvalidTransition)
  ∧ ((pet_status pet = PENDING ∨ pet_status pet = IN_CUSTODY) →
     newStatus = AVAILABLE → failsWith (fst r) = Some Forbidden).
Proof.
  intros Hpet Hrole Htarget. cbv zeta.
  rewrite (updatePetStatus_found _ _ _ _ _ _ _ _ Hpet).
  rewrite (authorizeStatusUpdate_other _ _ _ _ Hrole), validate_by_table.
  assert (Hadm : bool_decide (Some userRole = Some ADMIN) = false).
  { apply bool_decide_eq_false_2. congruence. }
  rewrite Hadm.
  destruct Htarget as [-> | ->]; destruct (pet_status pet); simpl;
    (split_and!; [reflexivity | reflexivity | intros [?|?] ?; congruence]).
Qed.

Lemma non_admin_target_ADOPTED_or_AVAILABLE_witness :
  pets (Examples.world PENDING) !! "pet-1" = Some (Examples.buddy PENDING)
  ∧ SHELTER ≠ ADMIN
  ∧ (AVAILABLE = ADOPTED ∨ AVAILABLE = AVAILABLE)
  ∧ snd (PetsService.updatePetStatus "pet-1" AVAILABLE "shelter-1" SHELTER None 7
           (Examples.world PENDING)) = Examples.world PENDING
  ∧ failsWith
      (fst (PetsService.updatePetStatus "pet-1" AVAILABLE "shelter-1" SHELTER None 7
              (Examples.world PENDING))) = Some Forbidden.
Proof.
  split; [apply world_lookup|]. split; [discriminate|].
  split; [by right|].
  destruct (non_admin_target_ADOPTED_or_AVAILABLE
              (Examples.world PENDING) "pet-1" (Examples.buddy PENDING)
              AVAILABLE "shelter-1" SHELTER None 7
              (world_lookup PENDING)
              ltac:(discriminate) (or_intror eq_refl)) as (Hw & _ & Hf).
  split; [exact Hw|]. apply Hf; [by left|reflexivity].
Defined.

(* ===================================================================== *)
(** * The internal entry point *)
(* ===================================================================== *)

Section InternalFacts.

Import StatusTransitionValidator TransitionPolicy PetsService.

Lemma changeStatusInternal_missing (w : World) (petId : string)
    (newStatus : PetStatus) (reason : option string) (now : Z) :
  pets w !! petId = None →
  changeStatusInternal petId newStatus reason now w =
    (inl (NotFoundException ("Pet with ID " +:+ petId +:+ " not found")), w).
Proof.
  intros Hnone. unfold changeStatusInternal, bind.
  by rewrite (getPetById_missing _ _ Hnone).
Qed.

(** The internal call and the call of an ADMIN return the same thing and
    leave the same tables. *)
Lemma changeStatusInternal_as_ADMIN (w : World) (petId : string)
    (newStatus : PetStatus) (userId : string) (reason : option string) (now : Z) :
  let ri := changeStatusInternal petId newStatus reason now w in
  let re := updatePetStatus petId newStatus userId ADMIN reason now w in
  fst ri = fst re
  ∧ pets (snd ri) = pets (snd re)
  ∧ adoptions (snd ri) = adoptions (snd re).
Proof.
  cbv zeta. destruct (pets w !! petId) as [pet|] eqn:Hpet.
  - rewrite (changeStatusInternal_found _ _ _ _ _ _ Hpet),
      (updatePetStatus_found _ _ _ _ _ _ _ _ Hpet), authorizeStatusUpdate_ADMIN.
    by destruct (validate _ _ _).
  - rewrite (changeStatusInternal_missing _ _ _ _ _ Hpet).
    unfold updatePetStatus, bind. by rewrite (getPetById_missing _ _ Hpet).
Qed.

End InternalFacts.

(** C7: [changeStatusInternal] behaves as [updatePetStatus] called with
    the elevated role: it returns what that call returns and leaves the
    pets as that call leaves them; it never fails with Forbidden; on every
    pair of the edge table, the elevated-only edge included, it succeeds
    and stores the requested status; and on every pair absent from the
    table it fails with InvalidTransition and writes nothing, exactly as an
    external call by any actor does. *)
Theorem changeStatusInternal_elevated_within_table
    (w : World) (petId : string) (pet : Pet) (newStatus : PetStatus)
    (reason : option string) (now : Z) :
  pets w !! petId = Some pet →
  let r := PetsService.changeStatusInternal petId newStatus reason now w in
  (∀ userId,
     fst r = fst (PetsService.updatePetStatus petId newStatus userId ADMIN reason now w)
     ∧ pets (snd r) =
         pets (snd (PetsService.updatePetStatus petId newStatus userId ADMIN reason now w)))
  ∧ failsWith (fst r) ≠ Some Forbidden
  ∧ (TransitionPolicy.inTable (pet_status pet) newStatus = true →
     fst r = inr (updated pet newStatus now)
     ∧ pets (snd r) !! petId = Some (updated pet newStatus now))
  ∧ (TransitionPolicy.inTable (pet_status pet) newStatus = false →
     failsWith (fst r) = Some InvalidTransition
     ∧ snd r = w
     ∧ ∀ userId userRole,
         failsWith (fst (PetsService.updatePetStatus petId newStatus userId userRole
                           reason now w)) = Some InvalidTransition).
Proof.
  intros Hpet. cbv zeta. split_and!.
  - intros userId.
    destruct (changeStatusInternal_as_ADMIN w petId newStatus userId reason now)
      as (? & ? & _). done.
  - rewrite (changeStatusInternal_found _ _ _ _ _ _ Hpet).
    destruct (StatusTransitionValidator.validate _ _ _) as [e|] eqn:Hv; [|done].
    simpl. by rewrite (validate_throws_BadRequest _ _ _ _ Hv).
  - intros Hin. rewrite (changeStatusInternal_found _ _ _ _ _ _ Hpet).
    rewrite (validate_on_table_ADMIN _ _ Hin). simpl.
    split; [done|]. apply lookup_insert_eq.
  - intros Hoff. rewrite (changeStatusInternal_found _ _ _ _ _ _ Hpet).
    destruct (validate_off_table _ _ (Some ADMIN) Hoff) as [m ->].
    split_and!; [done|done|]. intros userId userRole.
    by apply (updatePetStatus_off_table w petId pet).
Qed.

Lemma changeStatusInternal_elevated_within_table_witness :
  pets (Examples.world IN_CUSTODY) !! "pet-1" = Some (Examples.buddy IN_CUSTODY)
  ∧ failsWith
      (fst (PetsService.changeStatusInternal "pet-1" ADOPTED None 7
              (Examples.world IN_CUSTODY))) = Some InvalidTransition.
Proof.
  split; [apply world_lookup|].
  apply (changeStatusInternal_elevated_within_table
           (Examples.world IN_CUSTODY) "pet-1" (Examples.buddy IN_CUSTODY)
           ADOPTED None 7 (world_lookup IN_CUSTODY)).
  reflexivity.
Defined.

(** C9, as stated, fails: an available pet moved to PENDING with no reason
    given.  Both calls succeed; the ADMIN call logs its actor and no
    reason; were the actor the only difference, the internal call would log
    the same line with the actor left out, and it does not: it also logs a
    reason of its own. *)
Lemma internal_log_differs_in_reason :
  let ri := PetsService.changeStatusInternal "pet-1" PENDING None 7
              (Examples.world AVAILABLE) in
  let re := PetsService.updatePetStatus "pet-1" PENDING "admin-1" ADMIN None 7
              (Examples.world AVAILABLE) in
  succeeds (fst ri) = true
  ∧ succeeds (fst re) = true
  ∧ console (snd re) =
      [PetsService.statusChangeLine "pet-1" AVAILABLE PENDING (Some "admin-1") None]
  ∧ console (snd ri) ≠
      [PetsService.statusChangeLine "pet-1" AVAILABLE PENDING None None].
Proof.
  cbv zeta.
  rewrite (changeStatusInternal_found _ _ _ _ _ _ (world_lookup AVAILABLE)).
  rewrite (updatePetStatus_found _ _ _ _ _ _ _ _ (world_lookup AVAILABLE)).
  split_and!; [reflexivity|reflexivity|reflexivity|].
  vm_compute. discriminate.
Qed.

(** C9, amended: [changeStatusInternal(petId, status, reason)] returns
    exactly what [updatePetStatus(petId, status, userId, ADMIN, reason)]
    returns, for any user id: the same pet on success, the same exception
    on failure; both leave the same tables; a failed call writes and logs
    nothing.  On success the two differ only in the logged line: the ADMIN
    call logs its user id and the reason as given; the internal call logs
    no actor and the reason [reason || 'System-triggered status change'],
    which is the given reason when one is given and is not empty. *)
Theorem changeStatusInternal_vs_ADMIN_call
    (w : World) (petId : string) (newStatus : PetStatus) (userId : string)
    (reason : option string) (now : Z) :
  let ri := PetsService.changeStatusInternal petId newStatus reason now w in
  let re := PetsService.updatePetStatus petId newStatus userId ADMIN reason now w in
  fst ri = fst re
  ∧ pets (snd ri) = pets (snd re)
  ∧ adoptions (snd ri) = adoptions (snd re)
  ∧ match pets w !! petId, fst re with
    | Some pet, inr _ =>
        console (snd re) =
          (console w ++
           [PetsService.statusChangeLine petId (pet_status pet) newStatus
              (Some userId) reason])%list
        ∧ console (snd ri) =
          (console w ++
           [PetsService.statusChangeLine petId (pet_status pet) newStatus
              None (Some (or_else reason "System-triggered status change"))])%list
    | _, _ => snd re = w ∧ snd ri = w
    end
  ∧ (truthy reason = true →
     Some (or_else reason "System-triggered status change") = reason).
Proof.
  cbv zeta.
  destruct (changeStatusInternal_as_ADMIN w petId newStatus userId reason now)
    as (Hres & Hpets & Hadopt).
  split_and!; [exact Hres|exact Hpets|exact Hadopt| |].
  - destruct (pets w !! petId) as [pet|] eqn:Hpet.
    + rewrite (changeStatusInternal_found _ _ _ _ _ _ Hpet),
        (updatePetStatus_found _ _ _ _ _ _ _ _ Hpet),
        authorizeStatusUpdate_ADMIN.
      by destruct (StatusTransitionValidator.validate _ _ _).
    + rewrite (changeStatusInternal_missing _ _ _ _ _ Hpet).
      unfold PetsService.updatePetStatus, bind.
      by rewrite (getPetById_missing _ _ Hpet).
  - destruct reason as [s|]; [|done]. simpl.
    case_bool_decide; [done|]. done.
Qed.

(* ===================================================================== *)
(** * Two calls at once *)
(* ===================================================================== *)

Section ConcurrentFacts.

Import StatusTransitionValidator PetsService Concurrent.

(** What the first half throws is NotFound, InvalidTransition or
    Forbidden. *)
Lemma updatePetStatus_check_errors (petId : string) (newStatus : PetStatus)
    (userId : string) (userRole : UserRole) (w : World) (e : Exception) :
  fst (updatePetStatus_check petId newStatus userId userRole w) = inl e →
  errorKind e = Some NotFound
  ∨ errorKind e = Some InvalidTransition
  ∨ errorKind e = Some Forbidden.
Proof.
  destruct (pets w !! petId) as [pet|] eqn:Hpet.
  - rewrite (updatePetStatus_check_found _ _ _ _ _ _ Hpet).
    destruct (validate _ _ _) as [e'|] eqn:Hv.
    + intros [= <-]. right; left. by apply (validate_throws_BadRequest _ _ _ _ Hv).
    + destruct (authorizeStatusUpdate _ _ _ _) as [e'|] eqn:Ha; [|done].
      intros [= <-]. right; right. unfold authorizeStatusUpdate in Ha.
      repeat case_match; by inversion Ha.
  - unfold updatePetStatus_check, bind. rewrite (getPetById_missing _ _ Hpet).
    intros [= <-]. by left.
Qed.

(** What the second half throws is the storage error. *)
Lemma updatePetStatus_write_errors (pet : Pet) (petId : string)
    (newStatus : PetStatus) (userId : string) (reason : option string)
    (now : Z) (w : World) (e : Exception) :
  fst (updatePetStatus_write pet petId newStatus userId reason now w) = inl e →
  e = PrismaRecordNotFound.
Proof.
  unfold updatePetStatus_write, bind, Prisma.pet_update.
  destruct (pets w !! petId); simpl; by intros [= <-].
Qed.

(** A step never ends a task with Conflict. *)
Lemma step_never_Conflict (t : Task) (w : World) :
  rejected Conflict t = false → rejected Conflict (fst (step t w)) = false.
Proof.
  intros Ht. destruct t as [c|c pet|r]; simpl; [| |done].
  - destruct (updatePetStatus_check _ _ _ _ w) as [[e|pet] w'] eqn:Hc; [|done].
    simpl. apply bool_decide_eq_false_2.
    destruct (updatePetStatus_check_errors (call_petId c) (call_newStatus c)
                (call_userId c) (call_userRole c) w e) as [H|[H|H]];
      [by rewrite Hc|rewrite H..]; discriminate.
  - destruct (updatePetStatus_write _ _ _ _ _ _ w) as [[e|p] w'] eqn:Hw; [|done].
    simpl. apply bool_decide_eq_false_2.
    rewrite (updatePetStatus_write_errors pet (call_petId c) (call_newStatus c)
               (call_userId c) (call_reason c) (call_now c) w e); [discriminate|].
    by rewrite Hw.
Qed.

(** Under no schedule does a call end with Conflict. *)
Lemma run_never_Conflict (sched : list bool) (t1 t2 : Task) (w : World) :
  rejected Conflict t1 = false → rejected Conflict t2 = false →
  rejected Conflict (fst (fst (run sched t1 t2 w))) = false
  ∧ rejected Conflict (snd (fst (run sched t1 t2 w))) = false.
Proof.
  revert t1 t2 w. induction sched as [|[] sched IH]; intros t1 t2 w H1 H2; simpl.
  - done.
  - pose proof (step_never_Conflict t2 w H2) as H2'.
    destruct (step t2 w) as [t2' w']. by apply IH.
  - pose proof (step_never_Conflict t1 w H1) as H1'.
    destruct (step t1 w) as [t1' w']. by apply IH.
Qed.

(** A call that is legal alone gets through its first half with the pet as
    stored. *)
Lemma step_Ready_legal (c : Call) (w : World) (stored : Pet) :
  pets w !! call_petId c = Some stored →
  legalAlone c w = true →
  step (Ready c) w = (Awaiting c stored, w).
Proof.
  intros Hpet. unfold legalAlone. simpl.
  rewrite (updatePetStatus_check_found _ _ _ _ _ _ Hpet).
  destruct (validate _ _ _); [done|].
  by destruct (authorizeStatusUpdate _ _ _ _).
Qed.

(** The pending write goes through on whatever row is there. *)
Lemma step_Awaiting_found (c : Call) (observed stored : Pet) (w : World) :
  pets w !! call_petId c = Some stored →
  step (Awaiting c observed) w =
    (Finished (inr (updated stored (call_newStatus c) (call_now c))),
     afterCommit w (call_petId c) stored (call_newStatus c) (call_now c)
       (statusChangeLine (call_petId c) (pet_status observed) (call_newStatus c)
          (Some (call_userId c)) (call_reason c))).
Proof.
  intros Hpet. simpl. by rewrite (updatePetStatus_write_found _ _ _ _ _ _ _ _ Hpet).
Qed.

(** Two calls that are legal from the same state both get through their
    first halves, in either order, and the world is as it was. *)
Lemma run_both_read (c1 c2 : Call) (w : World) (stored : Pet) (a : bool) :
  pets w !! call_petId c1 = Some stored →
  call_petId c2 = call_petId c1 →
  legalAlone c1 w = true →
  legalAlone c2 w = true →
  run [a; negb a] (Ready c1) (Ready c2) w = (Awaiting c1 stored, Awaiting c2 stored, w).
Proof.
  intros Hpet Hid Hl1 Hl2.
  assert (Hpet2 : pets w !! call_petId c2 = Some stored) by by rewrite Hid.
  destruct a; cbn [run negb].
  - rewrite (step_Ready_legal c2 w stored Hpet2 Hl2).
    by rewrite (step_Ready_legal c1 w stored Hpet Hl1).
  - rewrite (step_Ready_legal c1 w stored Hpet Hl1).
    by rewrite (step_Ready_legal c2 w stored Hpet2 Hl2).
Qed.

(** Two pending writes on one pet both go through; each overwrites what it
    finds. *)
Lemma run_both_write (c1 c2 : Call) (o1 o2 stored : Pet) (w : World) (b : bool) :
  pets w !! call_petId c1 = Some stored →
  call_petId c2 = call_petId c1 →
  let final := run [b; negb b] (Awaiting c1 o1) (Awaiting c2 o2) w in
  committed (fst (fst final)) = true
  ∧ committed (snd (fst final)) = true
  ∧ storedStatus (snd final) (call_petId c1)
    = Some (call_newStatus (if b then c1 else c2)).
Proof.
  intros Hpet Hid. cbv zeta.
  assert (Hpet2 : pets w !! call_petId c2 = Some stored) by by rewrite Hid.
  destruct b; cbn [run negb].
  - rewrite (step_Awaiting_found c2 o2 stored w Hpet2).
    erewrite (step_Awaiting_found c1 o1);
      [|cbn [afterCommit pets]; rewrite Hid; apply lookup_insert_eq].
    unfold storedStatus. cbn [fst snd committed afterCommit pets].
    by rewrite lookup_insert_eq.
  - rewrite (step_Awaiting_found c1 o1 stored w Hpet).
    erewrite (step_Awaiting_found c2 o2);
      [|cbn [afterCommit pets]; rewrite Hid; apply lookup_insert_eq].
    unfold storedStatus. cbn [fst snd committed afterCommit pets].
    rewrite Hid. by rewrite lookup_insert_eq.
Qed.

(** A schedule can be run in two parts. *)
Lemma run_app (s1 s2 : list bool) (t1 t2 : Task) (w : World) :
  run (s1 ++ s2) t1 t2 w =
    run s2 (fst (fst (run s1 t1 t2 w))) (snd (fst (run s1 t1 t2 w)))
           (snd (run s1 t1 t2 w)).
Proof.
  revert t1 t2 w. induction s1 as [|[] s1 IH]; intros t1 t2 w; cbn [run app].
  - done.
  - destruct (step t2 w). apply IH.
  - destruct (step t1 w). apply IH.
Qed.

End ConcurrentFacts.

(** C1, as stated, fails: an available pet and two ADMIN calls, one for
    PENDING and one for IN_CUSTODY, each legal alone.  When both have read
    the pet before either writes, both commit, neither is rejected with
    Conflict, and the pet ends in the status written last. *)
Lemma concurrent_calls_both_commit :
  let c1 := Concurrent.mkCall "pet-1" PENDING "admin-1" ADMIN None 7 in
  let c2 := Concurrent.mkCall "pet-1" IN_CUSTODY "admin-2" ADMIN None 8 in
  let w := Examples.world AVAILABLE in
  let final := Concurrent.run [false; true; false; true]
                 (Concurrent.Ready c1) (Concurrent.Ready c2) w in
  Concurrent.legalAlone c1 w = true
  ∧ Concurrent.legalAlone c2 w = true
  ∧ Concurrent.committed (fst (fst final)) = true
  ∧ Concurrent.committed (snd (fst final)) = true
  ∧ Concurrent.rejected Conflict (fst (fst final)) = false
  ∧ Concurrent.rejected Conflict (snd (fst final)) = false
  ∧ Concurrent.storedStatus (snd final) "pet-1" = Some IN_CUSTODY.
Proof. cbv zeta. vm_compute. repeat split. Qed.

(** C1, amended: the write of [updatePetStatus] is not conditioned.  Once
    a call has passed its checks against the status it read, its update is
    applied to the row with that id whatever status the row holds by then;
    no call is ever rejected with Conflict, under any interleaving; and of
    two concurrent calls on one pet that are each legal from the same
    starting state and have both read it before either writes, both commit
    and the pet is left in the status written last. *)
Theorem updatePetStatus_write_not_conditioned
    (w : World) (stored : Pet) (c1 c2 : Concurrent.Call) (a b : bool) :
  pets w !! Concurrent.call_petId c1 = Some stored →
  Concurrent.call_petId c2 = Concurrent.call_petId c1 →
  Concurrent.legalAlone c1 w = true →
  Concurrent.legalAlone c2 w = true →
  let final := Concurrent.run [a; negb a; b; negb b]
                 (Concurrent.Ready c1) (Concurrent.Ready c2) w in
  (∀ observed newStatus userId reason now,
     fst (PetsService.updatePetStatus_write observed (Concurrent.call_petId c1)
            newStatus userId reason now w)
     = inr (updated stored newStatus now))
  ∧ (∀ sched,
       let any := Concurrent.run sched (Concurrent.Ready c1) (Concurrent.Ready c2) w in
       Concurrent.rejected Conflict (fst (fst any)) = false
       ∧ Concurrent.rejected Conflict (snd (fst any)) = false)
  ∧ Concurrent.committed (fst (fst final)) = true
  ∧ Concurrent.committed (snd (fst final)) = true
  ∧ Concurrent.storedStatus (snd final) (Concurrent.call_petId c1)
    = Some (Concurrent.call_newStatus (if b then c1 else c2)).
Proof.
  intros Hpet Hid Hl1 Hl2. cbv zeta. split_and!.
  - intros observed newStatus userId reason now.
    by rewrite (updatePetStatus_write_found _ _ _ _ _ _ _ _ Hpet).
  - intros sched. by apply run_never_Conflict.
  - change [a; negb a; b; negb b] with ([a; negb a] ++ [b; negb b])%list.
    rewrite run_app, (run_both_read c1 c2 w stored a Hpet Hid Hl1 Hl2).
    by apply (run_both_write c1 c2 stored stored stored w b).
  - change [a; negb a; b; negb b] with ([a; negb a] ++ [b; negb b])%list.
    rewrite run_app, (run_both_read c1 c2 w stored a Hpet Hid Hl1 Hl2).
    by apply (run_both_write c1 c2 stored stored stored w b).
  - change [a; negb a; b; negb b] with ([a; negb a] ++ [b; negb b])%list.
    rewrite run_app, (run_both_read c1 c2 w stored a Hpet Hid Hl1 Hl2).
    by apply (run_both_write c1 c2 stored stored stored w b).
Qed.

Lemma updatePetStatus_write_not_conditioned_witness :
  let c1 := Concurrent.mkCall "pet-1" PENDING "admin-1" ADMIN None 7 in
  let c2 := Concurrent.mkCall "pet-1" IN_CUSTODY "shelter-1" SHELTER None 8 in
  let final := Concurrent.run [false; true; true; false]
                 (Concurrent.Ready c1) (Concurrent.Ready c2)
                 (Examples.world AVAILABLE) in
  pets (Examples.world AVAILABLE) !! "pet-1" = Some (Examples.buddy AVAILABLE)
  ∧ Concurrent.call_petId c2 = Concurrent.call_petId c1
  ∧ Concurrent.legalAlone c1 (Examples.world AVAILABLE) = true
  ∧ Concurrent.legalAlone c2 (Examples.world AVAILABLE) = true
  ∧ Concurrent.committed (fst (fst final)) = true
  ∧ Concurrent.committed (snd (fst final)) = true
  ∧ Concurrent.storedStatus (snd final) "pet-1" = Some PENDING.
Proof.
  cbv zeta.
  split; [apply world_lookup|].
  split; [reflexivity|]. split; [reflexivity|]. split; [reflexivity|].
  apply (updatePetStatus_write_not_conditioned
           (Examples.world AVAILABLE) (Examples.buddy AVAILABLE)
           (Concurrent.mkCall "pet-1" PENDING "admin-1" ADMIN None 7)
           (Concurrent.mkCall "pet-1" IN_CUSTODY "shelter-1" SHELTER None 8)
           false true
           (world_lookup AVAILABLE) eq_refl eq_refl eq_refl).
Defined.

(* ===================================================================== *)
(** * Approving an adoption *)
(* ===================================================================== *)

Section AdoptionFacts.

Import PetsService AdoptionService.

(** A transaction that throws leaves both tables as they were. *)
Lemma transaction_rolls_back {A : Type} (m : M A) (w : World) :
  succeeds (fst (transaction m w)) = false →
  pets (snd (transaction m w)) = pets w
  ∧ adoptions (snd (transaction m w)) = adoptions w.
Proof. unfold transaction. by destruct (m w) as [[e|a] w']. Qed.

End AdoptionFacts.

(** C5: approving a requested adoption as ADMIN.  If the pet is AVAILABLE,
    the approval calls [changeStatusInternal(petId, PENDING)]: it succeeds,
    the pet is stored as that call stores it, in PENDING, and the adoption
    is stored APPROVED.  If the pet is not in the expected state
    (IN_CUSTODY or ADOPTED), the approval is rejected with Conflict.
    Whenever the approval fails, for whatever reason, neither the
    adoption's status nor any pet has changed. *)
Theorem approveAdoption_drives_pet
    (w : World) (id : string) (adoption : Adoption) (pet : Pet)
    (userId : string) (now : Z) :
  adoptions w !! id = Some adoption →
  adoption_status adoption = REQUESTED →
  pets w !! adoption_petId adoption = Some pet →
  let r := AdoptionController.approveAdoption userId ADMIN id now w in
  let internal :=
    PetsService.changeStatusInternal (adoption_petId adoption) PENDING
      (Some "Adoption approved by admin") now w in
  (pet_status pet = AVAILABLE →
     succeeds (fst r) = true
     ∧ pets (snd r) = pets (snd internal)
     ∧ Concurrent.storedStatus (snd r) (adoption_petId adoption) = Some PENDING
     ∧ adoption_status <$> adoptions (snd r) !! id = Some APPROVED)
  ∧ (pet_status pet = IN_CUSTODY ∨ pet_status pet = ADOPTED →
     failsWith (fst r) = Some Conflict)
  ∧ (succeeds (fst r) = false →
     pets (snd r) = pets w ∧ adoptions (snd r) = adoptions w).
Proof.
  intros Hadoption Hreq Hpet. cbv zeta. split_and!.
  - intros Havail.
    unfold AdoptionController.approveAdoption,
      AdoptionService.updateAdoptionStatus_APPROVED, AdoptionService.transaction, bind.
    rewrite Hadoption, Hreq, !bool_decide_eq_true_2 by done.
    unfold ret. rewrite (getPetById_found _ _ _ Hpet), Havail.
    rewrite (changeStatusInternal_found _ _ _ _ _ _ Hpet), Havail.
    rewrite (validate_on_table_ADMIN AVAILABLE PENDING eq_refl).
    unfold Concurrent.storedStatus.
    cbn [fst snd succeeds pets adoptions set_adoptions afterCommit].
    rewrite !lookup_insert_eq. done.
  - intros Hother.
    unfold AdoptionController.approveAdoption,
      AdoptionService.updateAdoptionStatus_APPROVED, AdoptionService.transaction, bind.
    rewrite Hadoption, Hreq, !bool_decide_eq_true_2 by done.
    unfold ret. rewrite (getPetById_found _ _ _ Hpet).
    by destruct Hother as [-> | ->].
  - apply transaction_rolls_back.
Qed.

Lemma approveAdoption_drives_pet_witness :
  let w := Examples.world_with_request IN_CUSTODY in
  let r := AdoptionController.approveAdoption "admin-1" ADMIN "adoption-1" 7 w in
  adoptions w !! "adoption-1" = Some Examples.request
  ∧ adoption_status Examples.request = REQUESTED
  ∧ pets w !! adoption_petId Examples.request = Some (Examples.buddy IN_CUSTODY)
  ∧ failsWith (fst r) = Some Conflict
  ∧ pets (snd r) = pets w
  ∧ adoptions (snd r) = adoptions w.
Proof.
  cbv zeta.
  split; [apply world_with_request_adoption|]. split; [reflexivity|].
  split; [apply world_with_request_pet|].
  destruct (approveAdoption_drives_pet
              (Examples.world_with_request IN_CUSTODY) "adoption-1"
              Examples.request (Examples.buddy IN_CUSTODY) "admin-1" 7
              (world_with_request_adoption IN_CUSTODY) eq_refl
              (world_with_request_pet IN_CUSTODY)) as (_ & Hconflict & Hrollback).
  split; [apply Hconflict; by left|].
  apply Hrollback. reflexivity.
Defined.

(* ===================================================================== *)
(** * Further properties of the validator *)
(* ===================================================================== *)

(** X1: [isTransitionValid] accepts a requested status exactly when
    [getAllowedTransitions] lists it for the same current status and the
    same role (or absence of role). *)
Theorem isTransitionValid_iff_listed
    (currentStatus newStatus : PetStatus) (userRole : option UserRole) :
  StatusTransitionValidator.isTransitionValid currentStatus newStatus userRole = true
  ↔ newStatus ∈ StatusTransitionValidator.getAllowedTransitions currentStatus userRole.
Proof.
  rewrite <- includes_elem_of.
  unfold StatusTransitionValidator.isTransitionValid.
  rewrite validate_by_table.
  destruct currentStatus, newStatus, userRole as [[]|]; done.
Qed.

(** X2: the two lists of [getTransitionInfo] tell what [validate] will do:
    a status is among [allowedTransitions] exactly when the transition is
    accepted whatever the role, and among [adminOnlyTransitions] exactly
    when it is accepted for ADMIN and refused for every other role and for
    no role; the status is echoed and the description is not empty. *)
Theorem getTransitionInfo_matches_validate (s t : PetStatus) :
  let info := StatusTransitionInfo.getTransitionInfo s in
  StatusTransitionInfo.currentStatus info = s
  ∧ (t ∈ StatusTransitionInfo.allowedTransitions info
     ↔ ∀ userRole, StatusTransitionValidator.isTransitionValid s t userRole = true)
  ∧ (t ∈ StatusTransitionInfo.adminOnlyTransitions info
     ↔ StatusTransitionValidator.isTransitionValid s t (Some ADMIN) = true
       ∧ ∀ userRole, userRole ≠ Some ADMIN →
           StatusTransitionValidator.isTransitionValid s t userRole = false)
  ∧ StatusTransitionInfo.description info ≠ EmptyString.
Proof.
  cbv zeta. split_and!.
  - reflexivity.
  - rewrite <- includes_elem_of. cbn [StatusTransitionInfo.getTransitionInfo
      StatusTransitionInfo.allowedTransitions].
    split.
    + intros Hin userRole. unfold StatusTransitionValidator.isTransitionValid.
      rewrite validate_by_table.
      destruct (tables_agree s t) as [-> _]. rewrite Hin.
      case_bool_decide as Heq; [|done].
      subst t. by destruct s.
    + intros Hall. specialize (Hall None).
      unfold StatusTransitionValidator.isTransitionValid in Hall.
      rewrite validate_by_table in Hall.
      by destruct s, t.
  - rewrite <- includes_elem_of. cbn [StatusTransitionInfo.getTransitionInfo
      StatusTransitionInfo.adminOnlyTransitions].
    split.
    + intros Hin. split.
      * by destruct s, t.
      * intros userRole Hrole. unfold StatusTransitionValidator.isTransitionValid.
        rewrite validate_by_table.
        destruct s, t; try done; by destruct userRole as [[]|].
    + intros [Hadmin Hothers]. specialize (Hothers None ltac:(done)).
      by destruct s, t.
  - by destruct s.
Qed.

Section SequenceFacts.

Import PetsService Sequence.

(** The route is accepted step by step, ends where asked, and is one to
    three steps long. *)
Lemma route_valid (from to : PetStatus) :
  validPath (Some ADMIN) from (route from to) = true
  ∧ last (route from to) = Some to
  ∧ (1 ≤ length (route from to) ≤ 3)%nat.
Proof. destruct from, to; (split_and!; [reflexivity|reflexivity|simpl; lia..]). Qed.

(** An ADMIN who follows an accepted path succeeds at every step, and the
    pet ends in the last status of the path. *)
Lemma updateAll_validPath (petId : string) (path : list PetStatus)
    (userId : string) (reason : option string) (now : Z) :
  ∀ (w : World) (pet : Pet),
    pets w !! petId = Some pet →
    validPath (Some ADMIN) (pet_status pet) path = true →
    succeeds (fst (updateAll petId path userId ADMIN reason now w)) = true
    ∧ Concurrent.storedStatus (snd (updateAll petId path userId ADMIN reason now w)) petId
      = Some (default (pet_status pet) (last path)).
Proof.
  induction path as [|t rest IH]; intros w pet Hpet Hpath.
  - split; [done|]. unfold Concurrent.storedStatus. simpl. by rewrite Hpet.
  - cbn [validPath] in Hpath. apply andb_true_iff in Hpath as [Hstep Hrest].
    unfold StatusTransitionValidator.isTransitionValid in Hstep.
    cbn [updateAll]. unfold bind.
    rewrite (updatePetStatus_found _ _ _ _ _ _ _ _ Hpet), authorizeStatusUpdate_ADMIN.
    destruct (StatusTransitionValidator.validate _ _ _) as [e|b]; [done|].
    set (w' := afterCommit _ _ _ _ _ _).
    assert (Hpet' : pets w' !! petId = Some (updated pet t now))
      by apply lookup_insert_eq.
    destruct (IH w' (updated pet t now) Hpet' Hrest) as [Hok Hlast].
    split; [exact Hok|]. rewrite Hlast. cbn [updated pet_status].
    rewrite last_cons. by destruct (last rest).
Qed.

End SequenceFacts.

(** X3: no pet is stuck for an ADMIN.  From whatever status an existing
    pet is stored in, every status (its own included) is reached by one to
    three successive calls of [updatePetStatus] by an ADMIN, all of which
    succeed. *)
Theorem admin_reaches_every_status
    (w : World) (petId : string) (pet : Pet) (to : PetStatus)
    (userId : string) (reason : option string) (now : Z) :
  pets w !! petId = Some pet →
  let path := Sequence.route (pet_status pet) to in
  let r := Sequence.updateAll petId path userId ADMIN reason now w in
  (1 ≤ length path ≤ 3)%nat
  ∧ succeeds (fst r) = true
  ∧ Concurrent.storedStatus (snd r) petId = Some to.
Proof.
  intros Hpet. cbv zeta.
  destruct (route_valid (pet_status pet) to) as (Hvalid & Hlast & Hlen).
  destruct (updateAll_validPath petId _ userId reason now w pet Hpet Hvalid)
    as [Hok Hstored].
  split_and!; [lia|lia|exact Hok|]. by rewrite Hstored, Hlast.
Qed.

Lemma admin_reaches_every_status_witness :
  let r := Sequence.updateAll "pet-1" [AVAILABLE; PENDING; ADOPTED] "admin-1" ADMIN
             None 7 (Examples.world IN_CUSTODY) in
  pets (Examples.world IN_CUSTODY) !! "pet-1" = Some (Examples.buddy IN_CUSTODY)
  ∧ succeeds (fst r) = true
  ∧ Concurrent.storedStatus (snd r) "pet-1" = Some ADOPTED.
Proof.
  cbv zeta. split; [apply world_lookup|].
  apply (admin_reaches_every_status (Examples.world IN_CUSTODY) "pet-1"
           (Examples.buddy IN_CUSTODY) ADOPTED "admin-1" None 7
           (world_lookup IN_CUSTODY)).
Defined.

(* ===================================================================== *)
(** * Further properties of one call of the service *)
(* ===================================================================== *)

(** X4: [updatePetStatus] succeeds in exactly these cases: the pet exists
    and either the actor is an ADMIN and the pair is in the edge table, or
    the actor is not an ADMIN, the pet is AVAILABLE and the requested
    status is PENDING or IN_CUSTODY. *)
Theorem updatePetStatus_succeeds_exactly
    (w : World) (petId : string) (newStatus : PetStatus) (userId : string)
    (userRole : UserRole) (reason : option string) (now : Z) :
  succeeds (fst (PetsService.updatePetStatus petId newStatus userId userRole
                   reason now w))
  = match pets w !! petId with
    | None => false
    | Some pet =>
        if bool_decide (userRole = ADMIN)
        then TransitionPolicy.inTable (pet_status pet) newStatus
        else bool_decide (pet_status pet = AVAILABLE)
             && (bool_decide (newStatus = PENDING)
                 || bool_decide (newStatus = IN_CUSTODY))
    end.
Proof.
  destruct (pets w !! petId) as [pet|] eqn:Hpet.
  - rewrite (updatePetStatus_found _ _ _ _ _ _ _ _ Hpet), validate_by_table.
    destruct (pet_status pet), newStatus, userRole; reflexivity.
  - unfold PetsService.updatePetStatus, bind.
    by rewrite (getPetById_missing _ _ Hpet).
Qed.



(** X6: what a call of [updatePetStatus] on an existing pet changes.  If
    it succeeds, the pet it returns has the id and the owner of the stored
    one, the requested status and the time of the call; [getPetById] then
    returns that pet; every other pet and every adoption is as before; one
    line is added to the console.  If it fails, nothing has changed. *)
Theorem updatePetStatus_effect
    (w : World) (petId : string) (pet : Pet) (newStatus : PetStatus)
    (userId : string) (userRole : UserRole) (reason : option string) (now : Z) :
  pets w !! petId = Some pet →
  let r := PetsService.updatePetStatus petId newStatus userId userRole reason now w in
  (succeeds (fst r) = true →
     ∃ p', fst r = inr p'
       ∧ pet_id p' = pet_id pet
       ∧ pet_currentOwnerId p' = pet_currentOwnerId pet
       ∧ pet_status p' = newStatus
       ∧ pet_updatedAt p' = now
       ∧ PetsService.getPetById petId (snd r) = (inr p', snd r)
       ∧ (∀ other, other ≠ petId → pets (snd r) !! other = pets w !! other)
       ∧ adoptions (snd r) = adoptions w
       ∧ console (snd r) =
           (console w ++
            [PetsService.statusChangeLine petId (pet_status pet) newStatus
               (Some userId) reason])%list)
  ∧ (succeeds (fst r) = false → snd r = w).
Proof.
  intros Hpet. cbv zeta. rewrite (updatePetStatus_found _ _ _ _ _ _ _ _ Hpet).
  destruct (StatusTransitionValidator.validate _ _ _) as [e|b]; [by split|].
  destruct (PetsService.authorizeStatusUpdate _ _ _ _) as [e|u]; [by split|].
  split; [|done]. intros _. exists (updated pet newStatus now).
  split_and!; try reflexivity.
  - apply getPetById_found. apply lookup_insert_eq.
  - intros other Hne. cbn [snd afterCommit pets]. by apply lookup_insert_ne.
Qed.

Lemma updatePetStatus_effect_witness :
  pets (Examples.world AVAILABLE) !! "pet-1" = Some (Examples.buddy AVAILABLE)
  ∧ snd (PetsService.updatePetStatus "pet-1" ADOPTED "admin-1" ADMIN None 7
           (Examples.world AVAILABLE)) = Examples.world AVAILABLE.
Proof.
  split; [apply world_lookup|].
  apply (updatePetStatus_effect (Examples.world AVAILABLE) "pet-1"
           (Examples.buddy AVAILABLE) ADOPTED "admin-1" ADMIN None 7
           (world_lookup AVAILABLE)).
  reflexivity.
Defined.

(** X7: a successful [updatePetStatus] cannot be repeated.  Asking again
    for the status just stored, by any actor, fails with the validator's
    no-op rejection (kind InvalidTransition) and changes nothing. *)
Theorem updatePetStatus_not_repeatable
    (w : World) (petId : string) (newStatus : PetStatus)
    (userId : string) (userRole : UserRole) (reason : option string) (now : Z)
    (userId' : string) (userRole' : UserRole) (reason' : option string) (now' : Z) :
  let r := PetsService.updatePetStatus petId newStatus userId userRole reason now w in
  let r' := PetsService.updatePetStatus petId newStatus userId' userRole' reason'
              now' (snd r) in
  succeeds (fst r) = true →
  fst r' = inl (BadRequestException (StatusTransitionValidator.msg_noop newStatus))
  ∧ snd r' = snd r.
Proof.
  cbv zeta. intros Hok.
  destruct (pets w !! petId) as [pet|] eqn:Hpet.
  - revert Hok. rewrite (updatePetStatus_found _ _ _ _ _ _ _ _ Hpet).
    destruct (StatusTransitionValidator.validate _ _ _) as [e|b]; [done|].
    destruct (PetsService.authorizeStatusUpdate _ _ _ _) as [e|u]; [done|].
    intros _. cbn [snd].
    erewrite updatePetStatus_found; [|apply lookup_insert_eq].
    cbn [updated pet_status]. rewrite validate_by_table.
    by rewrite bool_decide_eq_true_2.
  - revert Hok. unfold PetsService.updatePetStatus at 1, bind.
    by rewrite (getPetById_missing _ _ Hpet).
Qed.

Lemma updatePetStatus_not_repeatable_witness :
  succeeds (fst (PetsService.updatePetStatus "pet-1" PENDING "user-1" USER None 7
                   (Examples.world AVAILABLE))) = true
  ∧ fst (PetsService.updatePetStatus "pet-1" PENDING "admin-1" ADMIN None 8
           (snd (PetsService.updatePetStatus "pet-1" PENDING "user-1" USER None 7
                   (Examples.world AVAILABLE))))
    = inl (BadRequestException (StatusTransitionValidator.msg_noop PENDING)).
Proof.
  split; [reflexivity|].
  apply (updatePetStatus_not_repeatable (Examples.world AVAILABLE) "pet-1" PENDING
           "user-1" USER None 7 "admin-1" ADMIN None 8).
  reflexivity.
Defined.

(** X8: the list of the service's [getAllowedTransitions] against what
    [updatePetStatus] then does for the same role.  Every status the call
    would succeed for is listed.  For an ADMIN the list is exact: every
    listed status succeeds.  For any other role it is not: a listed
    ADOPTED or AVAILABLE is refused with Forbidden. *)
Theorem getAllowedTransitions_vs_updatePetStatus
    (w : World) (petId : string) (pet : Pet) (t : PetStatus)
    (userId : string) (userRole : UserRole) (reason : option string) (now : Z) :
  pets w !! petId = Some pet →
  let r := PetsService.updatePetStatus petId t userId userRole reason now w in
  ∃ listed,
    PetsService.getAllowedTransitions petId (Some userRole) w = (inr listed, w)
    ∧ (succeeds (fst r) = true → t ∈ listed)
    ∧ (userRole = ADMIN → t ∈ listed → succeeds (fst r) = true)
    ∧ (userRole ≠ ADMIN → t ∈ listed → t = ADOPTED ∨ t = AVAILABLE →
       failsWith (fst r) = Some Forbidden).
Proof.
  intros Hpet. cbv zeta. eexists. split.
  { unfold PetsService.getAllowedTransitions, bind.
    by rewrite (getPetById_found _ _ _ Hpet). }
  rewrite <- includes_elem_of.
  rewrite (updatePetStatus_found _ _ _ _ _ _ _ _ Hpet), validate_by_table.
  destruct (pet_status pet), t, userRole; simpl; split_and!; try done;
    intros ? ? [?|?]; done.
Qed.

Lemma getAllowedTransitions_vs_updatePetStatus_witness :
  pets (Examples.world PENDING) !! "pet-1" = Some (Examples.buddy PENDING)
  ∧ ∃ listed,
      PetsService.getAllowedTransitions "pet-1" (Some USER) (Examples.world PENDING)
      = (inr listed, Examples.world PENDING)
      ∧ ADOPTED ∈ listed
      ∧ failsWith
          (fst (PetsService.updatePetStatus "pet-1" ADOPTED "user-1" USER None 7
                  (Examples.world PENDING))) = Some Forbidden.
Proof.
  split; [apply world_lookup|].
  destruct (getAllowedTransitions_vs_updatePetStatus (Examples.world PENDING)
              "pet-1" (Examples.buddy PENDING) ADOPTED "user-1" USER None 7
              (world_lookup PENDING)) as (listed & Hlisted & _ & _ & Hforbidden).
  exists listed. split; [exact Hlisted|].
  assert (Hin : ADOPTED ∈ listed).
  { unfold PetsService.getAllowedTransitions, bind in Hlisted.
    rewrite (getPetById_found _ _ _ (world_lookup PENDING)) in Hlisted.
    injection Hlisted as <-. apply includes_elem_of. reflexivity. }
  split; [exact Hin|]. apply Hforbidden; [discriminate|exact Hin|by left].
Defined.

(** X9: an empty user id is logged as the system.  With the role ADMIN, an
    empty user id and a reason that is given and not empty,
    [updatePetStatus] returns the same result and leaves the same world,
    console included, as [changeStatusInternal]. *)
Theorem updatePetStatus_empty_userId_is_system
    (w : World) (petId : string) (newStatus : PetStatus)
    (reason : option string) (now : Z) :
  truthy reason = true →
  PetsService.updatePetStatus petId newStatus EmptyString ADMIN reason now w
  = PetsService.changeStatusInternal petId newStatus reason now w.
Proof.
  intros Hreason.
  assert (Hsame : Some (or_else reason "System-triggered status change") = reason).
  { destruct reason as [s|]; [|done]. simpl in *.
    by destruct (bool_decide (s = EmptyString)). }
  destruct (pets w !! petId) as [pet|] eqn:Hpet.
  - rewrite (updatePetStatus_found _ _ _ _ _ _ _ _ Hpet),
      (changeStatusInternal_found _ _ _ _ _ _ Hpet), authorizeStatusUpdate_ADMIN.
    destruct (StatusTransitionValidator.validate _ _ _); [done|].
    rewrite Hsame. reflexivity.
  - rewrite (changeStatusInternal_missing _ _ _ _ _ Hpet).
    unfold PetsService.updatePetStatus, bind.
    by rewrite (getPetById_missing _ _ Hpet).
Qed.

Lemma updatePetStatus_empty_userId_is_system_witness :
  truthy (Some "returned") = true
  ∧ PetsService.updatePetStatus "pet-1" AVAILABLE EmptyString ADMIN (Some "returned") 7
      (Examples.world ADOPTED)
    = PetsService.changeStatusInternal "pet-1" AVAILABLE (Some "returned") 7
        (Examples.world ADOPTED).
Proof.
  split; [reflexivity|].
  apply (updatePetStatus_empty_userId_is_system (Examples.world ADOPTED) "pet-1"
           AVAILABLE (Some "returned") 7).
  reflexivity.
Defined.

(* ===================================================================== *)
(** * Listing, editing and deleting pets *)
(* ===================================================================== *)

Section CrudFacts.

Import PetsService PetsServiceCrud.

(** [findAll] returns the rows stored with the status AVAILABLE, and does
    not write. *)
Lemma findAll_spec (w : World) :
  ∃ l, findAll w = (inr l, w)
    ∧ ∀ p, p ∈ l ↔ pet_status p = AVAILABLE ∧ ∃ id, pets w !! id = Some p.
Proof.
  eexists. split; [reflexivity|]. intros p.
  rewrite list_elem_of_filter, list_elem_of_fmap.
  split.
  - intros [Hst ([id p0] & -> & Hin)]. split; [done|].
    exists id. by apply elem_of_map_to_list.
  - intros [Hst (id & Hid)]. split; [done|].
    exists (id, p). split; [done|]. by apply elem_of_map_to_list.
Qed.

Lemma findOne_found (w : World) (id : string) (pet : Pet) :
  pets w !! id = Some pet → findOne id w = (inr pet, w).
Proof. intros H. unfold findOne, bind, Prisma.pet_findUnique. by rewrite H. Qed.

Lemma findOne_missing (w : World) (id : string) :
  pets w !! id = None → findOne id w = (inl (NotFoundException "Pet not found"), w).
Proof. intros H. unfold findOne, bind, Prisma.pet_findUnique. by rewrite H. Qed.

Lemma remove_ADMIN_found (w : World) (id : string) (pet : Pet) :
  pets w !! id = Some pet →
  remove id "ADMIN" w = (inr "Pet deleted successfully", set_pets (delete id) w).
Proof.
  intros H. unfold remove, bind, Prisma.pet_findUnique, PrismaCrud.pet_delete.
  rewrite H, bool_decide_eq_true_2 by done. cbn [negb]. by rewrite H.
Qed.

End CrudFacts.

(** X10: the public listing follows the lifecycle.  After a successful
    [updatePetStatus], [findAll] lists the updated pet exactly when the
    new status is AVAILABLE, and whatever it lists is AVAILABLE. *)
Theorem findAll_after_updatePetStatus
    (w : World) (petId : string) (newStatus : PetStatus) (userId : string)
    (userRole : UserRole) (reason : option string) (now : Z) (p' : Pet) :
  let r := PetsService.updatePetStatus petId newStatus userId userRole reason now w in
  fst r = inr p' →
  ∃ l, PetsServiceCrud.findAll (snd r) = (inr l, snd r)
    ∧ (p' ∈ l ↔ newStatus = AVAILABLE)
    ∧ (∀ p, p ∈ l → pet_status p = AVAILABLE).
Proof.
  cbv zeta. intros Hok.
  destruct (findAll_spec
              (snd (PetsService.updatePetStatus petId newStatus userId userRole
                      reason now w))) as (l & Hl & Hmem).
  exists l. split; [exact Hl|].
  assert (Hp' : pet_status p' = newStatus
                ∧ pets (snd (PetsService.updatePetStatus petId newStatus userId
                               userRole reason now w)) !! petId = Some p').
  { destruct (pets w !! petId) as [pet|] eqn:Hpet.
    - revert Hok. rewrite (updatePetStatus_found _ _ _ _ _ _ _ _ Hpet).
      destruct (StatusTransitionValidator.validate _ _ _) as [e|b]; [done|].
      destruct (PetsService.authorizeStatusUpdate _ _ _ _) as [e|u]; [done|].
      intros [= <-]. split; [done|]. apply lookup_insert_eq.
    - revert Hok. unfold PetsService.updatePetStatus, bind.
      by rewrite (getPetById_missing _ _ Hpet). }
  destruct Hp' as [Hst Hstored]. split.
  - rewrite Hmem, Hst. split; [by intros [? _]|]. intros Havail. split; [done|].
    by exists petId.
  - intros p Hin. by apply Hmem in Hin as [? _].
Qed.

Lemma findAll_after_updatePetStatus_witness :
  fst (PetsService.updatePetStatus "pet-1" PENDING "user-1" USER None 7
         (Examples.world AVAILABLE))
  = inr (updated (Examples.buddy AVAILABLE) PENDING 7)
  ∧ ∃ l, PetsServiceCrud.findAll
           (snd (PetsService.updatePetStatus "pet-1" PENDING "user-1" USER None 7
                   (Examples.world AVAILABLE)))
         = (inr l,
            snd (PetsService.updatePetStatus "pet-1" PENDING "user-1" USER None 7
                   (Examples.world AVAILABLE)))
       ∧ updated (Examples.buddy AVAILABLE) PENDING 7 ∉ l.
Proof.
  split; [reflexivity|].
  destruct (findAll_after_updatePetStatus (Examples.world AVAILABLE) "pet-1" PENDING
              "user-1" USER None 7 (updated (Examples.buddy AVAILABLE) PENDING 7)
              eq_refl) as (l & Hl & Hiff & _).
  exists l. split; [exact Hl|]. intros Hin. apply Hiff in Hin. discriminate.
Defined.

(** X11: who may edit a pet.  [update] looks the pet up first: on an
    unknown id it fails with NotFound whoever asks.  On an existing pet it
    goes through for the current owner, whatever the role, and for the
    role 'ADMIN', whoever the owner: the changed row is returned, is what
    [findOne] then returns, and no other row is touched.  For anyone else
    it fails with Forbidden and writes nothing. *)
Theorem update_access_control
    (w : World) (id : string) (updatePetDto : Pet → Pet)
    (userId userRole : string) :
  let r := PetsServiceCrud.update id updatePetDto userId userRole w in
  match pets w !! id with
  | None => failsWith (fst r) = Some NotFound ∧ snd r = w
  | Some pet =>
      if bool_decide (pet_currentOwnerId pet = userId)
         || bool_decide (userRole = "ADMIN")
      then fst r = inr (updatePetDto pet)
           ∧ PetsServiceCrud.findOne id (snd r) = (inr (updatePetDto pet), snd r)
           ∧ (∀ other, other ≠ id → pets (snd r) !! other = pets w !! other)
      else failsWith (fst r) = Some Forbidden ∧ snd r = w
  end.
Proof.
  cbv zeta. unfold PetsServiceCrud.update, bind, Prisma.pet_findUnique.
  destruct (pets w !! id) as [pet|] eqn:Hpet; [|done].
  do 2 case_bool_decide; cbn [negb andb orb]; try done.
  all: unfold PrismaCrud.pet_update_data; rewrite Hpet; cbn [fst snd].
  all: split_and!; [done|apply findOne_found, lookup_insert_eq|].
  all: intros other Hne; by apply lookup_insert_ne.
Qed.

(** X12: who may delete a pet, and what is left.  [remove] looks the pet
    up first: on an unknown id it fails with NotFound whatever the role.
    On an existing pet it fails with Forbidden and writes nothing unless
    the role is 'ADMIN'.  For 'ADMIN' it answers 'Pet deleted
    successfully'; afterwards the id is unknown to [findOne] and to
    [updatePetStatus], which both fail with NotFound, and every other row
    is as before. *)
Theorem remove_access_and_effect (w : World) (id : string) (userRole : string) :
  let r := PetsServiceCrud.remove id userRole w in
  match pets w !! id with
  | None => failsWith (fst r) = Some NotFound ∧ snd r = w
  | Some _ =>
      if bool_decide (userRole = "ADMIN")
      then fst r = inr "Pet deleted successfully"
           ∧ failsWith (fst (PetsServiceCrud.findOne id (snd r))) = Some NotFound
           ∧ (∀ newStatus userId role reason now,
                failsWith (fst (PetsService.updatePetStatus id newStatus userId role
                                  reason now (snd r))) = Some NotFound)
           ∧ (∀ other, other ≠ id → pets (snd r) !! other = pets w !! other)
      else failsWith (fst r) = Some Forbidden ∧ snd r = w
  end.
Proof.
  cbv zeta. unfold PetsServiceCrud.remove, bind, Prisma.pet_findUnique.
  destruct (pets w !! id) as [pet|] eqn:Hpet; [|done].
  case_bool_decide; cbn [negb]; [|done].
  unfold PrismaCrud.pet_delete. rewrite Hpet. cbn [fst snd ret].
  assert (Hgone : pets (set_pets (delete id) w) !! id = None)
    by apply lookup_delete_eq.
  split_and!.
  - done.
  - by rewrite (findOne_missing _ _ Hgone).
  - intros newStatus userId role reason now.
    unfold PetsService.updatePetStatus, bind.
    by rewrite (getPetById_missing _ _ Hgone).
  - intros other Hne. by apply lookup_delete_ne.
Qed.

(** X13: a status change that races with a deletion.  If the pet is
    deleted after [updatePetStatus] has read and checked it and before its
    write, the write throws the storage error, which is none of the four
    kinds of the taxonomy; the pet is not brought back and nothing is
    logged. *)
Theorem updatePetStatus_write_after_remove
    (w : World) (petId : string) (observed : Pet) (newStatus : PetStatus)
    (userId : string) (userRole : UserRole) (reason : option string) (now : Z) :
  fst (PetsService.updatePetStatus_check petId newStatus userId userRole w)
    = inr observed →
  let w' := snd (PetsServiceCrud.remove petId "ADMIN" w) in
  let r := PetsService.updatePetStatus_write observed petId newStatus userId
             reason now w' in
  fst r = inl PrismaRecordNotFound
  ∧ failsWith (fst r) = None
  ∧ pets (snd r) !! petId = None
  ∧ console (snd r) = console w.
Proof.
  intros Hcheck. cbv zeta.
  destruct (pets w !! petId) as [pet|] eqn:Hpet; cycle 1.
  { revert Hcheck. unfold PetsService.updatePetStatus_check, bind.
    by rewrite (getPetById_missing _ _ Hpet). }
  rewrite (remove_ADMIN_found _ _ _ Hpet). cbn [snd].
  assert (Hgone : pets (set_pets (delete petId) w) !! petId = None)
    by apply lookup_delete_eq.
  unfold PetsService.updatePetStatus_write, bind, Prisma.pet_update.
  rewrite Hgone. by cbn [fst snd failsWith errorKind].
Qed.

Lemma updatePetStatus_write_after_remove_witness :
  fst (PetsService.updatePetStatus_check "pet-1" PENDING "user-1" USER
         (Examples.world AVAILABLE)) = inr (Examples.buddy AVAILABLE)
  ∧ fst (PetsService.updatePetStatus_write (Examples.buddy AVAILABLE) "pet-1" PENDING
           "user-1" None 7
           (snd (PetsServiceCrud.remove "pet-1" "ADMIN" (Examples.world AVAILABLE))))
    = inl PrismaRecordNotFound.
Proof.
  split; [reflexivity|].
  apply (updatePetStatus_write_after_remove (Examples.world AVAILABLE) "pet-1"
           (Examples.buddy AVAILABLE) PENDING "user-1" USER None 7).
  reflexivity.
Defined.

(* ===================================================================== *)
(** * Calls that do not overlap *)
(* ===================================================================== *)

Section SequentialFacts.

Import PetsService Concurrent.

(** A call whose two steps run back to back is [updatePetStatus]. *)
Lemma step_step_Ready (c : Call) (w : World) :
  step (fst (step (Ready c) w)) (snd (step (Ready c) w))
  = (Finished (fst (updatePetStatus (call_petId c) (call_newStatus c)
                      (call_userId c) (call_userRole c) (call_reason c)
                      (call_now c) w)),
     snd (updatePetStatus (call_petId c) (call_newStatus c)
            (call_userId c) (call_userRole c) (call_reason c) (call_now c) w)).
Proof.
  rewrite updatePetStatus_halves. unfold bind. cbn [step].
  destruct (updatePetStatus_check _ _ _ _ w) as [[e|pet] w']; cbn [fst snd step];
    [done|].
  by destruct (updatePetStatus_write _ _ _ _ _ _ w').
Qed.

(** Under a schedule that gives a call its two steps in a row, the call
    finishes as [updatePetStatus] does and the other task has not moved. *)
Lemma run_two_steps (c : Call) (other : Task) (w : World) :
  run [false; false] (Ready c) other w
    = (Finished (fst (updatePetStatus (call_petId c) (call_newStatus c)
                        (call_userId c) (call_userRole c) (call_reason c)
                        (call_now c) w)),
       other,
       snd (updatePetStatus (call_petId c) (call_newStatus c)
              (call_userId c) (call_userRole c) (call_reason c) (call_now c) w))
  ∧ run [true; true] other (Ready c) w
    = (other,
       Finished (fst (updatePetStatus (call_petId c) (call_newStatus c)
                        (call_userId c) (call_userRole c) (call_reason c)
                        (call_now c) w)),
       snd (updatePetStatus (call_petId c) (call_newStatus c)
              (call_userId c) (call_userRole c) (call_reason c) (call_now c) w)).
Proof.
  pose proof (step_step_Ready c w) as H.
  split; cbn [run];
    destruct (step (Ready c) w) as [t1 w1];
    cbn [fst snd] in H; by rewrite H.
Qed.

End SequentialFacts.


(** X15: without overlap there is no lost update.  When the first of two
    calls on one pet has committed before the second starts, the second is
    validated against the status the first stored: if that pair is not in
    the edge table, the second is rejected with InvalidTransition and the
    pet keeps the status of the first. *)
Theorem sequential_calls_second_sees_first
    (w : World) (stored : Pet) (c1 c2 : Concurrent.Call) :
  pets w !! Concurrent.call_petId c1 = Some stored →
  Concurrent.call_petId c2 = Concurrent.call_petId c1 →
  Concurrent.legalAlone c1 w = true →
  TransitionPolicy.inTable (Concurrent.call_newStatus c1)
    (Concurrent.call_newStatus c2) = false →
  let final := Concurrent.run [false; false; true; true]
                 (Concurrent.Ready c1) (Concurrent.Ready c2) w in
  Concurrent.committed (fst (fst final)) = true
  ∧ Concurrent.rejected InvalidTransition (snd (fst final)) = true
  ∧ Concurrent.storedStatus (snd final) (Concurrent.call_petId c1)
    = Some (Concurrent.call_newStatus c1).
Proof.
  intros Hpet Hid Hlegal Hoff. cbv zeta.
  change [false; false; true; true] with ([false; false] ++ [true; true])%list.
  rewrite run_app.
  destruct (run_two_steps c1 (Concurrent.Ready c2) w)
    as [-> _].
  cbn [fst snd].
  set (r1 := PetsService.updatePetStatus _ _ _ _ _ _ w).
  destruct (run_two_steps c2 (Concurrent.Finished (fst r1))
              (snd r1)) as [_ ->].
  cbn [fst snd]. subst r1.
  rewrite (updatePetStatus_found _ _ _ _ _ _ _ _ Hpet).
  unfold Concurrent.legalAlone in Hlegal.
  rewrite (updatePetStatus_check_found _ _ _ _ _ _ Hpet) in Hlegal.
  destruct (StatusTransitionValidator.validate _ _ _) as [e|b]; [done|].
  destruct (PetsService.authorizeStatusUpdate _ _ _ _) as [e|u]; [done|].
  cbn [fst snd]. rewrite Hid.
  set (w1 := afterCommit _ _ _ _ _ _).
  assert (Hpet1 : pets w1 !! Concurrent.call_petId c1
                  = Some (updated stored (Concurrent.call_newStatus c1)
                            (Concurrent.call_now c1))) by apply lookup_insert_eq.
  destruct (updatePetStatus_off_table w1 (Concurrent.call_petId c1) _
              (Concurrent.call_newStatus c2) (Concurrent.call_userId c2)
              (Concurrent.call_userRole c2) (Concurrent.call_reason c2)
              (Concurrent.call_now c2) Hpet1 Hoff) as [Hfail Hsame].
  split_and!.
  - done.
  - cbn [Concurrent.rejected]. by apply bool_decide_eq_true_2.
  - rewrite Hsame. unfold Concurrent.storedStatus. by rewrite Hpet1.
Qed.

Lemma sequential_calls_second_sees_first_witness :
  let c1 := Concurrent.mkCall "pet-1" PENDING "admin-1" ADMIN None 7 in
  let c2 := Concurrent.mkCall "pet-1" IN_CUSTODY "admin-2" ADMIN None 8 in
  let final := Concurrent.run [false; false; true; true]
                 (Concurrent.Ready c1) (Concurrent.Ready c2)
                 (Examples.world AVAILABLE) in
  pets (Examples.world AVAILABLE) !! "pet-1" = Some (Examples.buddy AVAILABLE)
  ∧ Concurrent.call_petId c2 = Concurrent.call_petId c1
  ∧ Concurrent.legalAlone c1 (Examples.world AVAILABLE) = true
  ∧ TransitionPolicy.inTable PENDING IN_CUSTODY = false
  ∧ Concurrent.committed (fst (fst final)) = true
  ∧ Concurrent.rejected InvalidTransition (snd (fst final)) = true
  ∧ Concurrent.storedStatus (snd final) "pet-1" = Some PENDING.
Proof.
  cbv zeta. split; [apply world_lookup|].
  split; [reflexivity|]. split; [reflexivity|]. split; [reflexivity|].
  apply (sequential_calls_second_sees_first (Examples.world AVAILABLE)
           (Examples.buddy AVAILABLE)
           (Concurrent.mkCall "pet-1" PENDING "admin-1" ADMIN None 7)
           (Concurrent.mkCall "pet-1" IN_CUSTODY "admin-2" ADMIN None 8)
           (world_lookup AVAILABLE) eq_refl eq_refl eq_refl).
Defined.

(* ===================================================================== *)
(** * Any interleaving *)
(* ===================================================================== *)

Section InterleavingFacts.

Import PetsService Concurrent.

(** The task is at some stage of the call [c]. *)
Definition taskOf (c : Call) (t : Task) : Prop :=
  t = Ready c ∨ (∃ pet, t = Awaiting c pet) ∨ (∃ r, t = Finished r).

Lemma step_taskOf (c : Call) (t : Task) (w : World) :
  taskOf c t → taskOf c (fst (step t w)).
Proof.
  intros [-> | [[pet ->] | [r ->]]]; cbn [step].
  - destruct (updatePetStatus_check _ _ _ _ w) as [[e|pet] w']; cbn [fst].
    + right; right. by eexists.
    + right; left. by eexists.
  - destruct (updatePetStatus_write _ _ _ _ _ _ w) as [r w']. right; right.
    by eexists.
  - right; right. by eexists.
Qed.

(** A step leaves the adoptions alone and changes at most the status of
    the pet of its call, to the status the call asked for; it neither adds
    nor deletes a pet. *)
Lemma step_frame (c : Call) (t : Task) (w : World) (id : string) :
  taskOf c t →
  adoptions (snd (step t w)) = adoptions w
  ∧ (storedStatus (snd (step t w)) id = storedStatus w id
     ∨ (id = call_petId c ∧ is_Some (pets w !! id)
        ∧ storedStatus (snd (step t w)) id = Some (call_newStatus c))).
Proof.
  intros [-> | [[pet ->] | [r ->]]]; cbn [step].
  - destruct (pets w !! call_petId c) as [stored|] eqn:Hpet.
    + rewrite (updatePetStatus_check_found _ _ _ _ _ _ Hpet).
      destruct (StatusTransitionValidator.validate _ _ _); [by split; [|left]|].
      destruct (authorizeStatusUpdate _ _ _ _); by split; [|left].
    + unfold updatePetStatus_check, bind.
      rewrite (getPetById_missing _ _ Hpet). by split; [|left].
  - destruct (pets w !! call_petId c) as [stored|] eqn:Hpet.
    + rewrite (updatePetStatus_write_found _ _ _ _ _ _ _ _ Hpet).
      cbn [snd afterCommit adoptions]. split; [done|].
      unfold storedStatus, afterCommit. cbn [pets].
      destruct (decide (id = call_petId c)) as [->|Hne].
      * right. rewrite lookup_insert_eq, Hpet. by split_and!.
      * left. by rewrite lookup_insert_ne.
    + unfold updatePetStatus_write, bind, Prisma.pet_update. rewrite Hpet.
      by split; [|left].
  - by split; [|left].
Qed.

(** Whatever the schedule, the adoptions are untouched, and each pet that
    existed keeps its status or has the status one of the two calls asked
    for it; a pet that did not exist still does not. *)
Lemma run_frame (sched : list bool) (c1 c2 : Call) :
  ∀ (t1 t2 : Task) (w : World) (id : string),
    taskOf c1 t1 → taskOf c2 t2 →
    adoptions (snd (run sched t1 t2 w)) = adoptions w
    ∧ (storedStatus (snd (run sched t1 t2 w)) id = storedStatus w id
       ∨ (id = call_petId c1 ∧ is_Some (pets w !! id)
          ∧ storedStatus (snd (run sched t1 t2 w)) id = Some (call_newStatus c1))
       ∨ (id = call_petId c2 ∧ is_Some (pets w !! id)
          ∧ storedStatus (snd (run sched t1 t2 w)) id = Some (call_newStatus c2))).
Proof.
  assert (Hsome : ∀ (w w' : World) (id : string),
             storedStatus w' id = storedStatus w id →
             is_Some (pets w' !! id) → is_Some (pets w !! id)).
  { unfold storedStatus. intros w w' id Heq [p Hp]. rewrite Hp in Heq.
    destruct (pets w !! id); [by eexists|done]. }
  induction sched as [|[] sched IH]; intros t1 t2 w id H1 H2; cbn [run].
  - by split; [|left].
  - pose proof (step_taskOf c2 t2 w H2) as H2'.
    destruct (step_frame c2 t2 w id H2) as [Ha Hs].
    destruct (step t2 w) as [t2' w']. cbn [fst snd] in *.
    destruct (IH t1 t2' w' id H1 H2') as [Ha' Hs'].
    split; [congruence|].
    destruct Hs' as [Hs'|[(-> & Hex & Hs')|(-> & Hex & Hs')]].
    + destruct Hs as [Hs|(-> & Hex & Hs)].
      * left. congruence.
      * right; right. split_and!; [done|done|congruence].
    + right; left. split_and!; [done| |done].
      destruct Hs as [Hs|(_ & Hex' & _)]; [by eapply Hsome|done].
    + right; right. split_and!; [done| |done].
      destruct Hs as [Hs|(_ & Hex' & _)]; [by eapply Hsome|done].
  - pose proof (step_taskOf c1 t1 w H1) as H1'.
    destruct (step_frame c1 t1 w id H1) as [Ha Hs].
    destruct (step t1 w) as [t1' w']. cbn [fst snd] in *.
    destruct (IH t1' t2 w' id H1' H2) as [Ha' Hs'].
    split; [congruence|].
    destruct Hs' as [Hs'|[(-> & Hex & Hs')|(-> & Hex & Hs')]].
    + destruct Hs as [Hs|(-> & Hex & Hs)].
      * left. congruence.
      * right; left. split_and!; [done|done|congruence].
    + right; left. split_and!; [done| |done].
      destruct Hs as [Hs|(_ & Hex' & _)]; [by eapply Hsome|done].
    + right; right. split_and!; [done| |done].
      destruct Hs as [Hs|(_ & Hex' & _)]; [by eapply Hsome|done].
Qed.

End InterleavingFacts.

(** X16: what two overlapping calls of [updatePetStatus] can do at most.
    Under every schedule, the adoptions are untouched, and every pet id
    is left with the status it had (or still unknown), or, if it is the pet
    of one of the calls and it existed, with the status that call asked
    for. *)
Theorem concurrent_calls_frame
    (sched : list bool) (c1 c2 : Concurrent.Call) (w : World) (id : string) :
  let final := Concurrent.run sched (Concurrent.Ready c1) (Concurrent.Ready c2) w in
  adoptions (snd final) = adoptions w
  ∧ (Concurrent.storedStatus (snd final) id = Concurrent.storedStatus w id
     ∨ (id = Concurrent.call_petId c1 ∧ is_Some (pets w !! id)
        ∧ Concurrent.storedStatus (snd final) id = Some (Concurrent.call_newStatus c1))
     ∨ (id = Concurrent.call_petId c2 ∧ is_Some (pets w !! id)
        ∧ Concurrent.storedStatus (snd final) id = Some (Concurrent.call_newStatus c2))).
Proof.
  cbv zeta. apply run_frame; by left.
Qed.

(* ===================================================================== *)
(** * Messages and descriptions *)
(* ===================================================================== *)

(** X17: what the error of [validate] tells the caller.  Whenever
    [validate] throws, the exception is a [BadRequestException] whose
    message names the current status and the requested status; it begins
    with 'Pet status is already' exactly when the two are equal, and it
    contains 'requires ADMIN role' exactly when the pair is an
    elevated-only edge. *)
Theorem validate_error_messages
    (currentStatus newStatus : PetStatus) (userRole : option UserRole) :
  match StatusTransitionValidator.validate currentStatus newStatus userRole with
  | inr _ => True
  | inl e =>
      errorKind e = Some InvalidTransition
      ∧ String_includes (message e) (PetStatus_toString currentStatus) = true
      ∧ String_includes (message e) (PetStatus_toString newStatus) = true
      ∧ String.prefix "Pet status is already" (message e)
        = bool_decide (currentStatus = newStatus)
      ∧ String_includes (message e) "requires ADMIN role"
        = TransitionPolicy.isElevatedOnly currentStatus newStatus
  end.
Proof.
  rewrite validate_by_table.
  destruct currentStatus, newStatus; try exact I;
    destruct userRole as [[]|]; try exact I; vm_compute; by split_and!.
Qed.

(** X18: the service's [getTransitionInfo] against
    [changeStatusInternal].  On an unknown id both fail with NotFound.  On
    an existing pet the two lists of the info, taken together, hold
    exactly the statuses to which [changeStatusInternal] will move the
    pet.  [getTransitionInfo] never writes. *)
Theorem getTransitionInfo_vs_changeStatusInternal
    (w : World) (petId : string) (t : PetStatus) (reason : option string) (now : Z) :
  let internal := PetsService.changeStatusInternal petId t reason now w in
  snd (PetsServiceCrud.getTransitionInfo petId w) = w
  ∧ match fst (PetsServiceCrud.getTransitionInfo petId w) with
    | inl e =>
        errorKind e = Some NotFound ∧ failsWith (fst internal) = Some NotFound
    | inr info =>
        t ∈ (StatusTransitionInfo.allowedTransitions info ++
             StatusTransitionInfo.adminOnlyTransitions info)%list
        ↔ succeeds (fst internal) = true
    end.
Proof.
  cbv zeta. unfold PetsServiceCrud.getTransitionInfo, bind.
  destruct (pets w !! petId) as [pet|] eqn:Hpet.
  - rewrite (getPetById_found _ _ _ Hpet). cbn [ret fst snd]. split; [done|].
    rewrite (changeStatusInternal_found _ _ _ _ _ _ Hpet), validate_by_table.
    rewrite <- includes_elem_of.
    by destruct (pet_status pet), t.
  - rewrite (getPetById_missing _ _ Hpet). cbn [fst snd]. split; [done|].
    by rewrite (changeStatusInternal_missing _ _ _ _ _ Hpet).
Qed.
